(** * A bridge between a Twilio media stream and a Phonic speech-to-speech stream

    Shallow embedding of [simple_twilio_example.py]: the two message pumps
    [process_phonic_messages] and [process_twilio_messages], the connection
    handler [websocket_endpoint], and the parts of the Python runtime they
    lean on (dict access, truthiness, [base64.b64decode]).

    Conventions.
    - A Python [str] is a Rocq [string] holding its UTF-8 bytes; an ASCII
      character is one byte below 128, every other code point is a run of
      bytes that are all 128 or above.
    - A Python [bytes] object is a [list byte].
    - A Python [dict] is an association list in insertion order.
    - Exceptions are values of [exn]; code that may raise returns [result]. *)

From Stdlib Require Import String Ascii List ZArith NArith Lia Bool.
From Stdlib Require Import Strings.Byte.
From Stdlib Require Import Floats.SpecFloat.
Import ListNotations.

Set Implicit Arguments.
Set Warnings "-register-all".

Local Open Scope string_scope.

(* ================================================================= *)
(** ** Python objects *)

(** What [json.loads] can return, which is also what the speech-service
    client yields and what [websocket.send_json] accepts. *)
Inductive value : Type :=
| VNone
| VBool (b : bool)
| VInt (z : Z)
| VFloat (f : spec_float)
| VStr (s : string)
| VList (l : list value)
| VDict (d : list (string * value)).

Definition dict : Type := list (string * value).

(** [d.get(k)] at the level of the table: the binding of [k], if any. *)
Fixpoint dict_get (k : string) (d : dict) : option value :=
  match d with
  | [] => None
  | (k', v) :: d' => if String.eqb k k' then Some v else dict_get k d'
  end.

(** [d[k] = v]: an existing key keeps its place, a new key goes last. *)
Fixpoint dict_set (k : string) (v : value) (d : dict) : dict :=
  match d with
  | [] => [(k, v)]
  | (k', v') :: d' =>
      if String.eqb k k' then (k', v) :: d' else (k', v') :: dict_set k v d'
  end.

(** Exceptions the program can meet.  Only the class matters to the control
    flow: [except json.JSONDecodeError] and [except Exception]. *)
Inductive exn : Type :=
| KeyError (key : string)
| TypeError
| AttributeError
| ValueError
| BinasciiError                          (* binascii.Error *)
| JSONDecodeError (msg : string)
| OtherException (name msg : string)     (* any other subclass of Exception *)
| CancelledError                         (* asyncio.CancelledError *)
| OtherBaseException (name msg : string) (* KeyboardInterrupt, SystemExit, ... *).

(** [isinstance(e, Exception)]. *)
Definition is_Exception (e : exn) : bool :=
  match e with
  | CancelledError | OtherBaseException _ _ => false
  | _ => true
  end.

(** [isinstance(e, json.JSONDecodeError)]. *)
Definition is_JSONDecodeError (e : exn) : bool :=
  match e with
  | JSONDecodeError _ => true
  | _ => false
  end.

Inductive result (A : Type) : Type :=
| Ok (a : A)
| Raise (e : exn).

Arguments Ok {A} a.
Arguments Raise {A} e.

(** [bool(v)]. *)
Definition truthy (v : value) : bool :=
  match v with
  | VNone => false
  | VBool b => b
  | VInt z => negb (Z.eqb z 0)
  | VFloat (S754_zero _) => false
  | VFloat _ => true
  | VStr s => negb (String.eqb s "")
  | VList l => match l with [] => false | _ => true end
  | VDict d => match d with [] => false | _ => true end
  end.

(** [o[k]] for a [str] key [k]. *)
Definition getitem (o : value) (k : string) : result value :=
  match o with
  | VDict d =>
      match dict_get k d with
      | Some v => Ok v
      | None => Raise (KeyError k)
      end
  | _ => Raise TypeError
  end.

(** [o.get(k, default)]; only a dict has the method. *)
Definition get (o : value) (k : string) (default : value) : result value :=
  match o with
  | VDict d =>
      match dict_get k d with
      | Some v => Ok v
      | None => Ok default
      end
  | _ => Raise AttributeError
  end.

(** [v == s] for a [str] literal [s]. *)
Definition eq_str (v : value) (s : string) : bool :=
  match v with
  | VStr s' => String.eqb s' s
  | _ => false
  end.

(** [c in s] for a one-character string [c]. *)
Definition char_in (c : ascii) (s : string) : bool :=
  existsb (Ascii.eqb c) (list_ascii_of_string s).

(* ================================================================= *)
(** ** base64 *)

Module Base64.

Local Open Scope N_scope.

Definition BASE64_PAD : ascii := "="%char.

Definition table_b2a_base64 : list ascii :=
  list_ascii_of_string
    "ABCDEFGHIJKLMNOPQRSTUVWXYZabcdefghijklmnopqrstuvwxyz0123456789+/".

Definition b2a (sextet : N) : ascii :=
  nth (N.to_nat sextet) table_b2a_base64 BASE64_PAD.

(** The decoding table: the value of an alphabet character, [None] for
    every other byte. *)
Definition table_a2b_base64 (c : ascii) : option N :=
  let n := N_of_ascii c in
  if (65 <=? n) && (n <=? 90) then Some (n - 65)
  else if (97 <=? n) && (n <=? 122) then Some (n - 71)
  else if (48 <=? n) && (n <=? 57) then Some (n + 4)
  else if n =? 43 then Some 62
  else if n =? 47 then Some 63
  else None.

(** Store into an [unsigned char]: the low eight bits. *)
Definition uchar (n : N) : byte := byte_of_ascii (ascii_of_N n).

(** [binascii.a2b_base64] without [strict_mode]: bytes outside the alphabet
    are skipped, a pad sequence that completes a quad ends the parse, and
    a quad left open at the end of the input is an error. *)
Fixpoint a2b_loop (ascii_data : list ascii) (quad_pos leftchar pads : N)
    (bin_data : list byte) : result (list byte) :=
  match ascii_data with
  | [] => if quad_pos =? 0 then Ok bin_data else Raise BinasciiError
  | this_ch :: rest =>
      if Ascii.eqb this_ch BASE64_PAD then
        if 2 <=? quad_pos then
          if 4 <=? quad_pos + (pads + 1) then Ok bin_data
          else a2b_loop rest quad_pos leftchar (pads + 1) bin_data
        else a2b_loop rest quad_pos leftchar pads bin_data
      else
        match table_a2b_base64 this_ch with
        | None => a2b_loop rest quad_pos leftchar pads bin_data
        | Some v =>
            if quad_pos =? 0 then a2b_loop rest 1 v 0 bin_data
            else if quad_pos =? 1 then
              a2b_loop rest 2 (N.land v 15) 0
                (bin_data ++ [uchar (N.lor (N.shiftl leftchar 2) (N.shiftr v 4))])
            else if quad_pos =? 2 then
              a2b_loop rest 3 (N.land v 3) 0
                (bin_data ++ [uchar (N.lor (N.shiftl leftchar 4) (N.shiftr v 2))])
            else
              a2b_loop rest 0 0 0
                (bin_data ++ [uchar (N.lor (N.shiftl leftchar 6) v)])
        end
  end.

Definition a2b_base64 (data : list ascii) : result (list byte) :=
  a2b_loop data 0 0 0 [].

(** [base64.b64decode(s)] for a [str] argument: the string must be ASCII
    ([ValueError] otherwise), then [binascii.a2b_base64]. *)
Definition b64decode_str (s : string) : result (list byte) :=
  let data := list_ascii_of_string s in
  if forallb (fun c => N_of_ascii c <? 128) data then a2b_base64 data
  else Raise ValueError.

(** [base64.b64decode(v)] for a JSON value: anything but a string is
    neither bytes-like nor an ASCII string. *)
Definition b64decode (v : value) : result (list byte) :=
  match v with
  | VStr s => b64decode_str s
  | _ => Raise TypeError
  end.

(** The standard encoding ([base64.b64encode], as text): three bytes give
    four characters, a short last group is padded with [=]. *)
Fixpoint b64encode (bs : list byte) : string :=
  match bs with
  | [] => EmptyString
  | [a] =>
      let a := Byte.to_N a in
      String (b2a (N.shiftr a 2))
        (String (b2a (N.shiftl (N.land a 3) 4))
           (String BASE64_PAD (String BASE64_PAD EmptyString)))
  | [a; b] =>
      let a := Byte.to_N a in
      let b := Byte.to_N b in
      String (b2a (N.shiftr a 2))
        (String (b2a (N.lor (N.shiftl (N.land a 3) 4) (N.shiftr b 4)))
           (String (b2a (N.shiftl (N.land b 15) 2))
              (String BASE64_PAD EmptyString)))
  | a :: b :: c :: rest =>
      let a := Byte.to_N a in
      let b := Byte.to_N b in
      let c := Byte.to_N c in
      String (b2a (N.shiftr a 2))
        (String (b2a (N.lor (N.shiftl (N.land a 3) 4) (N.shiftr b 4)))
           (String (b2a (N.lor (N.shiftl (N.land b 15) 2) (N.shiftr c 6)))
              (String (b2a (N.land c 63)) (b64encode rest))))
  end.

(** The numbers below [k], for checks by enumeration. *)
Definition below (k : nat) : list N := map N.of_nat (seq 0 k).

(** A character of the alphabet decodes to its index, is not the pad and
    is ASCII. *)
Definition sextet_ok (s : N) : bool :=
  match table_a2b_base64 (b2a s) with
  | Some v => v =? s
  | None => false
  end
  && negb (Ascii.eqb (b2a s) BASE64_PAD)
  && (N_of_ascii (b2a s) <? 128).

(** First and second character of a group, and the first byte back. *)
Definition check_ab (a b : N) : bool :=
  let s0 := N.shiftr a 2 in
  let s1 := N.lor (N.shiftl (N.land a 3) 4) (N.shiftr b 4) in
  (s0 <? 64) && (s1 <? 64)
  && (N.lor (N.shiftl s0 2) (N.shiftr s1 4) =? a)
  && (N.land s1 15 =? N.shiftr b 4).

(** Third character, and the second byte back. *)
Definition check_bc (b c : N) : bool :=
  let s2 := N.lor (N.shiftl (N.land b 15) 2) (N.shiftr c 6) in
  (s2 <? 64)
  && (N.lor (N.shiftl (N.shiftr b 4) 4) (N.shiftr s2 2) =? b)
  && (N.land s2 3 =? N.shiftr c 6).

(** Fourth character, and the third byte back. *)
Definition check_c (c : N) : bool :=
  let s3 := N.land c 63 in
  (s3 <? 64) && (N.lor (N.shiftl (N.shiftr c 6) 6) s3 =? c).

(** The short last groups. *)
Definition check_tail1 (a : N) : bool :=
  let s0 := N.shiftr a 2 in
  let s1 := N.shiftl (N.land a 3) 4 in
  (s1 <? 64) && (N.lor (N.shiftl s0 2) (N.shiftr s1 4) =? a).

Definition check_tail2 (b : N) : bool :=
  let s2 := N.shiftl (N.land b 15) 2 in
  (s2 <? 64) && (N.lor (N.shiftl (N.shiftr b 4) 4) (N.shiftr s2 2) =? b).

End Base64.


(* ================================================================= *)
(** ** Observable effects and the session state *)

Inductive level : Type := INFO | ERROR.

(** An f-string, kept as its pieces: literal text and the interpolated
    objects, unformatted. *)
Inductive piece : Type :=
| Lit (s : string)
| Arg (v : value)
| ArgExn (e : exn).

Inductive task : Type := PhonicTask | TwilioTask.

(** Calls that leave the program, in the order they are made. *)
Inductive event : Type :=
| Log (lvl : level) (msg : list piece)   (* logger.info / logger.error *)
| SendJson (data : value)                (* await websocket.send_json(data) *)
| SendAudio (audio : list N)             (* await client.send_audio(audio) *)
| Accept                                 (* await websocket.accept() *)
| EnterClient                            (* PhonicSTSClient(...).__aenter__() *)
| Sts                                    (* client.sts(...) *)
| ExitClient                             (* client.__aexit__(...) *)
| Cancel (t : task)                      (* task.cancel() *).

(** The session: the dict both pumps hold a reference to, the transcript
    buffer (a local of [process_phonic_messages], kept here so that it can
    be observed after every message), and the effects so far, oldest
    first. *)
Record state : Type := {
  shared_state : dict;
  text_buffer : string;
  trace : list event
}.

(** What the program does not decide: the parser, whether an external call
    raises (given the calls made so far, the last one being the call in
    question), and whether the client's [__aexit__] swallows an exception. *)
Record env : Type := {
  json_loads : string -> result value;
  io_fault : list event -> option exn;
  aexit_suppresses : bool
}.

Definition M (A : Type) : Type := state -> result A * state.

Definition ret {A : Type} (a : A) : M A := fun st => (Ok a, st).

Definition raise {A : Type} (e : exn) : M A := fun st => (Raise e, st).

Definition bind {A B : Type} (m : M A) (k : A -> M B) : M B :=
  fun st =>
    match m st with
    | (Ok a, st') => k a st'
    | (Raise e, st') => (Raise e, st')
    end.

Definition lift {A : Type} (r : result A) : M A := fun st => (r, st).

Notation "'let*' x ':=' m 'in' k" := (bind m (fun x => k))
  (at level 61, x name, m at next level, right associativity).
Notation "m ;; k" := (bind m (fun _ => k))
  (at level 61, right associativity).

Definition emit (ev : event) : M unit :=
  fun st =>
    (Ok tt, {| shared_state := shared_state st;
               text_buffer := text_buffer st;
               trace := (trace st ++ [ev])%list |}).

Definition logger_info (msg : list piece) : M unit := emit (Log INFO msg).
Definition logger_error (msg : list piece) : M unit := emit (Log ERROR msg).

(** [shared_state[k]]. *)
Definition shared_getitem (k : string) : M value :=
  fun st => (getitem (VDict (shared_state st)) k, st).

(** [shared_state[k] = v]. *)
Definition shared_setitem (k : string) (v : value) : M unit :=
  fun st =>
    (Ok tt, {| shared_state := dict_set k v (shared_state st);
               text_buffer := text_buffer st;
               trace := trace st |}).

Definition read_text_buffer : M string := fun st => (Ok (text_buffer st), st).

Definition set_text_buffer (s : string) : M unit :=
  fun st =>
    (Ok tt, {| shared_state := shared_state st;
               text_buffer := s;
               trace := trace st |}).

(** [np.frombuffer(b, dtype=np.uint8)]: the same bytes, read as numbers. *)
Definition np_frombuffer_uint8 (b : list byte) : list N := map Byte.to_N b.

(** Where a pump or the handler stands: waiting at an [await] for input
    that has not come yet, returned, or ended by an exception. *)
Inductive status : Type :=
| Suspended
| Returned
| Raised (e : exn).

Definition done (s : status) : bool :=
  match s with
  | Suspended => false
  | _ => true
  end.

(** One step of [async for message in sts_stream]. *)
Inductive stream_item : Type :=
| Yield (message : value)
| StreamEnd
| StreamRaises (e : exn).

(** One [await websocket.receive_text()]. *)
Inductive recv_event : Type :=
| RecvText (message : string)
| RecvRaises (e : exn).

Inductive control : Type := Continue | Break.

Definition sid_key : string := "twilio_stream_sid".

Section Program.

Variable E : env.

(** An awaited call on a peer: made, then it returns or raises. *)
Definition call (ev : event) : M unit :=
  bind (emit ev)
    (fun _ st =>
       match io_fault E (trace st) with
       | None => (Ok tt, st)
       | Some e => (Raise e, st)
       end).

(* ----------------------------------------------------------------- *)
(** *** [process_phonic_messages] *)

(** [text_buffer += text]. *)
Definition iadd_text_buffer (text : value) : M unit :=
  match text with
  | VStr s =>
      let* text_buffer := read_text_buffer in
      set_text_buffer (text_buffer ++ s)
  | _ => raise TypeError
  end.

(** [any(punc in text_buffer for punc in ".!?")]. *)
Definition any_punc (text_buffer : string) : bool :=
  existsb (fun punc => char_in punc text_buffer) (list_ascii_of_string ".!?").

(** The body of the [async for] loop. *)
Definition phonic_body (message : value) : M unit :=
  let* message_type := lift (get message "type" VNone) in
  if eq_str message_type "audio_chunk" then
    let* audio := lift (getitem message "audio") in
    let* text := lift (get message "text" VNone) in
    (if truthy text then
       iadd_text_buffer text ;;
       let* text_buffer := read_text_buffer in
       if any_punc text_buffer then
         logger_info [Lit "Assistant: "; Arg (VStr text_buffer)] ;;
         set_text_buffer ""
       else ret tt
     else ret tt) ;;
    let* known := shared_getitem sid_key in
    if truthy known then
      let* sid := shared_getitem sid_key in
      call (SendJson (VDict [("event", VStr "media");
                             ("streamSid", sid);
                             ("media", VDict [("payload", audio)])]))
    else ret tt
  else if eq_str message_type "audio_finished" then
    let* text_buffer := read_text_buffer in
    if negb (String.eqb text_buffer "") then
      logger_info [Lit "Assistant: "; Arg (VStr text_buffer)] ;;
      set_text_buffer ""
    else ret tt
  else if eq_str message_type "input_text" then
    let* text := lift (getitem message "text") in
    logger_info [Lit "User: "; Arg text]
  else if eq_str message_type "interrupted_response" then
    (let* known := shared_getitem sid_key in
     if truthy known then
       let* sid := shared_getitem sid_key in
       call (SendJson (VDict [("event", VStr "clear"); ("streamSid", sid)]))
     else ret tt) ;;
    logger_info [Lit "Response interrupted"]
  else ret tt.

(** One turn of the loop: the stream yields, ends or fails. *)
Definition phonic_iteration (item : stream_item) : M control :=
  match item with
  | Yield message => phonic_body message ;; ret Continue
  | StreamEnd => ret Break
  | StreamRaises e => raise e
  end.

Definition after_iteration (r : result control) : status :=
  match r with
  | Ok Continue => Suspended
  | Ok Break => Returned
  | Raise e => Raised e
  end.

Fixpoint phonic_loop (items : list stream_item) (st : state) : status * state :=
  match items with
  | [] => (Suspended, st)
  | item :: rest =>
      match phonic_iteration item st with
      | (Ok Continue, st') => phonic_loop rest st'
      | (r, st') => (after_iteration r, st')
      end
  end.

(** The pump, fed the items its stream produces; [text_buffer = ""] comes
    first. *)
Definition process_phonic_messages (items : list stream_item) (st : state)
  : status * state :=
  match set_text_buffer "" st with
  | (_, st0) => phonic_loop items st0
  end.

(* ----------------------------------------------------------------- *)
(** *** [process_twilio_messages] *)

(** The [if]/[elif] chain on a decoded frame.  [data["event"]] is looked
    up once here; the chain looks it up again in each test, with the same
    outcome. *)
Definition twilio_body (data : value) : M unit :=
  let* event := lift (getitem data "event") in
  if eq_str event "connected" then
    logger_info [Lit "Twilio connection established"]
  else if eq_str event "start" then
    logger_info [Lit "Twilio stream started"]
  else
    let* inbound :=
      (if eq_str event "media" then
         let* media := lift (get data "media" (VDict [])) in
         let* track := lift (get media "track" VNone) in
         ret (eq_str track "inbound")
       else ret false) in
    if inbound then
      let* known := shared_getitem sid_key in
      (if negb (truthy known) then
         let* sid := lift (getitem data "streamSid") in
         shared_setitem sid_key sid
       else ret tt) ;;
      let* media := lift (getitem data "media") in
      let* payload := lift (getitem media "payload") in
      let* audio_bytes := lift (Base64.b64decode payload) in
      let audio_np := np_frombuffer_uint8 audio_bytes in
      call (SendAudio audio_np)
    else ret tt.

(** One turn of [while True]: the two nested [try] blocks, then the
    chain. *)
Definition twilio_iteration (ev : recv_event) : M control :=
  match ev with
  | RecvRaises e =>
      if is_Exception e then
        logger_error [Lit "Error receiving message: "; ArgExn e] ;; ret Break
      else raise e
  | RecvText message =>
      match json_loads E message with
      | Ok data => twilio_body data ;; ret Continue
      | Raise e =>
          if is_JSONDecodeError e then
            logger_error [Lit "Failed to decode JSON: "; ArgExn e;
                          Lit " - Message: "; Arg (VStr message)] ;;
            ret Continue
          else if is_Exception e then
            logger_error [Lit "Error receiving message: "; ArgExn e] ;;
            ret Break
          else raise e
      end
  end.

Fixpoint process_twilio_messages (evs : list recv_event) (st : state)
  : status * state :=
  match evs with
  | [] => (Suspended, st)
  | ev :: rest =>
      match twilio_iteration ev st with
      | (Ok Continue, st') => process_twilio_messages rest st'
      | (r, st') => (after_iteration r, st')
      end
  end.

End Program.

(* ================================================================= *)
(** ** The connection handler *)

(** The two tasks of a connection. *)
Record tasks : Type := {
  phonic_task : status;
  twilio_task : status
}.

(** What reaches the connection, in arrival order: an item of the
    speech-service stream or the outcome of a receive on the telephony
    socket. *)
Inductive pump_input : Type :=
| ToPhonic (item : stream_item)
| ToTwilio (ev : recv_event).

(** How far the [try] block got. *)
Inductive progress : Type :=
| Finished      (* ran to its end *)
| Waiting       (* still inside [await asyncio.wait(...)] *).

(** What [await asyncio.wait([phonic_task, twilio_task],
    return_when=FIRST_COMPLETED)] comes back with.  The handler is woken
    some turns of the event loop after the first task is done: by then the
    other task may have taken more turns, may be done as well, or may be
    suspended in the middle of a turn, at its send.  None of this is the
    handler's choice, so it is an input here: the statuses of the two
    tasks as [done, pending] are computed and the state the tasks have
    left behind; or no answer yet; or the exception raised at the
    [await], which is [CancelledError] when the handler's own task is
    cancelled while it waits ([asyncio.wait] then leaves the two tasks
    running). *)
Inductive wait_outcome : Type :=
| WaitReturns (t : tasks) (st : state)
| WaitPending (st : state)
| WaitRaises (e : exn) (st : state).

(** The event loop as the handler meets it: what comes of the wait, given
    the state in which the tasks start, and what tasks that are still
    running (none was cancelled) do while the handler is in
    [await client.__aexit__(...)]. *)
Record event_loop : Type := {
  during_wait : state -> wait_outcome;
  during_exit : state -> state
}.

Section Handler.

Variable E : env.

(** The two tasks run by turns on what arrives, each turn from a receive
    to the next one; the state a turn changes is changed before its own
    [await] on a send.  A task that is done takes no more turns, and what
    arrives for it is left unread; the other task goes on. *)
Fixpoint run_tasks (sched : list pump_input) (t : tasks) (st : state)
  : tasks * state :=
  match sched with
  | [] => (t, st)
  | ToPhonic item :: rest =>
      if done (phonic_task t) then run_tasks rest t st
      else
        match phonic_iteration E item st with
        | (r, st') =>
            run_tasks rest
              {| phonic_task := after_iteration r;
                 twilio_task := twilio_task t |} st'
        end
  | ToTwilio ev :: rest =>
      if done (twilio_task t) then run_tasks rest t st
      else
        match twilio_iteration E ev st with
        | (r, st') =>
            run_tasks rest
              {| phonic_task := phonic_task t;
                 twilio_task := after_iteration r |} st'
        end
  end.

(** An event loop that gives the tasks the turns of [sched] and then, if
    one of them is done, wakes the handler. *)
Definition scheduled (sched : list pump_input) : event_loop :=
  {| during_wait := fun st =>
       match run_tasks sched
               {| phonic_task := Suspended; twilio_task := Suspended |} st with
       | (t, st') =>
           if done (phonic_task t) || done (twilio_task t) then WaitReturns t st'
           else WaitPending st'
       end;
     during_exit := fun st => st |}.

(** [for task in pending: task.cancel()]. *)
Definition cancel_pending (t : tasks) : M unit :=
  (if done (phonic_task t) then ret tt else emit (Cancel PhonicTask)) ;;
  (if done (twilio_task t) then ret tt else emit (Cancel TwilioTask)).

(** The end of [async with]: [await client.__aexit__(...)], called with
    the exception that ended the body, if one did.  The exception goes on
    unless [__aexit__] suppresses it or raises itself.  [go_on] is what
    running tasks do in the meantime. *)
Definition aexit (raised : option exn) (go_on : state -> state) : M progress :=
  fun st =>
    match call E ExitClient st with
    | (Raise e', st') => (Raise e', go_on st')
    | (Ok _, st') =>
        match raised with
        | None => (Ok Finished, go_on st')
        | Some e =>
            if aexit_suppresses E then (Ok Finished, go_on st')
            else (Raise e, go_on st')
        end
    end.

(** From the answer of the wait to the end of [async with]: the tasks
    still pending are cancelled and, with no [await] in between, the
    client's scope is left. *)
Definition after_wait (L : event_loop) (w : wait_outcome) : result progress * state :=
  match w with
  | WaitPending st => (Ok Waiting, st)
  | WaitRaises e st => aexit (Some e) (during_exit L) st
  | WaitReturns t st =>
      (* [asyncio.wait] does not return before a task is done *)
      if done (phonic_task t) || done (twilio_task t) then
        (cancel_pending t ;; aexit None (fun st' => st')) st
      else (Ok Waiting, st)
  end.

(** [async with PhonicSTSClient(...) as client:], its body being
    [client.sts(...)], the two [create_task] (the phonic task starts with
    [text_buffer = ""]), the wait and the cancelling.  When
    [client.sts(...)] raises, no task exists yet. *)
Definition async_with (L : event_loop) : M progress :=
  call E EnterClient ;;
  fun st =>
    match call E Sts st with
    | (Raise e, st') => aexit (Some e) (fun st'' => st'') st'
    | (Ok _, st') =>
        match set_text_buffer "" st' with
        | (_, st'') => after_wait L (during_wait L st'')
        end
    end.

(** The [try] block. *)
Definition try_block (L : event_loop) : M progress :=
  call E Accept ;;
  logger_info [Lit "Twilio WebSocket connection accepted"] ;;
  (fun st =>
     (Ok tt, {| shared_state := [(sid_key, VNone)];
                text_buffer := text_buffer st;
                trace := trace st |})) ;;
  async_with L.

(** [except Exception as e: ...] and [finally: ...], applied to the way
    the [try] block ended. *)
Definition except_finally (r : result progress * state) : status * state :=
  match r with
  | (Ok Waiting, st') => (Suspended, st')
  | (Ok Finished, st') =>
      match logger_info [Lit "WebSocket connection closed"] st' with
      | (_, st'') => (Returned, st'')
      end
  | (Raise e, st') =>
      if is_Exception e then
        match (logger_error [Lit "WebSocket error: "; ArgExn e] ;;
               logger_info [Lit "WebSocket connection closed"]) st' with
        | (_, st'') => (Returned, st'')
        end
      else
        match logger_info [Lit "WebSocket connection closed"] st' with
        | (_, st'') => (Raised e, st'')
        end
  end.

(** [websocket_endpoint]. *)
Definition websocket_endpoint (L : event_loop) (st : state)
  : status * state :=
  except_finally (try_block L st).

End Handler.

(* ================================================================= *)
(** ** Vocabulary for the statements *)

(** The stream identifier recorded in the shared dict, if the key is
    there. *)
Definition stream_id (st : state) : option value :=
  dict_get sid_key (shared_state st).

(** What was handed to [websocket.send_json], oldest first. *)
Definition sent_json (t : list event) : list value :=
  flat_map (fun ev => match ev with SendJson data => [data] | _ => [] end) t.

(** What was handed to [client.send_audio], oldest first. *)
Definition sent_audio (t : list event) : list (list N) :=
  flat_map (fun ev => match ev with SendAudio a => [a] | _ => [] end) t.

(** The completed assistant utterances that were logged. *)
Definition flushes (t : list event) : list string :=
  flat_map
    (fun ev =>
       match ev with
       | Log INFO [Lit prefix; Arg (VStr s)] =>
           if String.eqb prefix "Assistant: " then [s] else []
       | _ => []
       end) t.

(** The exceptions the handler logged as [WebSocket error]. *)
Definition handler_errors (t : list event) : list exn :=
  flat_map
    (fun ev =>
       match ev with
       | Log ERROR [Lit prefix; ArgExn e] =>
           if String.eqb prefix "WebSocket error: " then [e] else []
       | _ => []
       end) t.

Definition count_exits (t : list event) : nat :=
  length (filter (fun ev => match ev with ExitClient => true | _ => false end) t).

(** The test of the third branch of the chain in [process_twilio_messages]:
    [data["event"] == "media" and data.get("media", {}).get("track") == "inbound"],
    true when it evaluates to [True] without raising. *)
Definition is_inbound_media (data : value) : bool :=
  match getitem data "event" with
  | Ok event =>
      eq_str event "media"
      && match get data "media" (VDict []) with
         | Ok media =>
             match get media "track" VNone with
             | Ok track => eq_str track "inbound"
             | Raise _ => false
             end
         | Raise _ => false
         end
  | Raise _ => false
  end.

(** [message.get("type") == ty] for a dict [message]. *)
Definition has_type (message : dict) (ty : string) : bool :=
  match dict_get "type" message with
  | Some v => eq_str v ty
  | None => false
  end.

(** The two envelopes of the outbound telephony protocol. *)
Definition media_envelope (sid audio : value) : value :=
  VDict [("event", VStr "media");
         ("streamSid", sid);
         ("media", VDict [("payload", audio)])].

Definition clear_envelope (sid : value) : value :=
  VDict [("event", VStr "clear"); ("streamSid", sid)].

Definition closing_line : event :=
  Log INFO [Lit "WebSocket connection closed"].

(** The state after one more log record, everything else as it was. *)
Definition logged (ev : event) (st : state) : state :=
  {| shared_state := shared_state st;
     text_buffer := text_buffer st;
     trace := trace st ++ [ev] |}.


Definition receive_error_record (e : exn) : event :=
  Log ERROR [Lit "Error receiving message: "; ArgExn e].

(** The three things a turn of the receive loop can be. *)




(** The handler's log records. *)
Definition accepted_line : event :=
  Log INFO [Lit "Twilio WebSocket connection accepted"].

Definition error_line (e : exn) : event :=
  Log ERROR [Lit "WebSocket error: "; ArgExn e].

(** The connection once accepted, the client entered and the stream
    opened: the point where the two tasks start. *)
Definition after_setup (st : state) : state :=
  {| shared_state := [(sid_key, VNone)];
     text_buffer := "";
     trace := trace st ++ [Accept; accepted_line; EnterClient; Sts] |}.

Definition both_suspended : tasks :=
  {| phonic_task := Suspended; twilio_task := Suspended |}.

(** The [task.cancel()] calls for the tasks still pending. *)
Definition cancels (t : tasks) : list event :=
  ((if done (phonic_task t) then [] else [Cancel PhonicTask])
   ++ (if done (twilio_task t) then [] else [Cancel TwilioTask]))%list.

(** Every failure of a call on a peer is an [Exception]. *)
Definition faults_are_exceptions (E : env) : Prop :=
  forall t e, io_fault E t = Some e -> is_Exception e = true.

(** Messages and frames for the examples. *)
Definition audio_chunk (audio : value) (text : string) : value :=
  VDict [("type", VStr "audio_chunk"); ("audio", audio); ("text", VStr text)].

Definition audio_finished : value := VDict [("type", VStr "audio_finished")].

Definition interrupted_response : value :=
  VDict [("type", VStr "interrupted_response")].

Definition media_frame (sid : value) (track payload : string) : value :=
  VDict [("event", VStr "media");
         ("streamSid", sid);
         ("media", VDict [("track", VStr track); ("payload", VStr payload)])].

(** JSON text of a media frame whose [streamSid] is a string. *)
Definition quoted (s : string) : string :=
  String "034"%char (s ++ String "034"%char EmptyString).

Definition media_frame_text (sid track payload : string) : string :=
  "{" ++ quoted "event" ++ ": " ++ quoted "media" ++ ", "
      ++ quoted "streamSid" ++ ": " ++ quoted sid ++ ", "
      ++ quoted "media" ++ ": {" ++ quoted "track" ++ ": " ++ quoted track ++ ", "
      ++ quoted "payload" ++ ": " ++ quoted payload ++ "}}".

(** Four bytes of mu-law silence, [b"\xff\xff\xff\xff"], in base64. *)
Definition silence : string := "/////w==".

(** Three texts the telephony peer can send, and one that is not JSON. *)
Definition empty_sid_text : string := media_frame_text "" "inbound" silence.
Definition first_text : string := media_frame_text "MZ18ad3ab5" "inbound" silence.
Definition second_text : string := media_frame_text "MZ7c2f90e1" "inbound" silence.

(** A parser known on those texts: the three media frames parse to their
    objects, the empty object to an empty dict, and every other text is
    taken as malformed. *)
Definition example_loads (s : string) : result value :=
  if String.eqb s empty_sid_text then
    Ok (media_frame (VStr "") "inbound" silence)
  else if String.eqb s first_text then
    Ok (media_frame (VStr "MZ18ad3ab5") "inbound" silence)
  else if String.eqb s second_text then
    Ok (media_frame (VStr "MZ7c2f90e1") "inbound" silence)
  else if String.eqb s "{}" then Ok (VDict [])
  else Raise (JSONDecodeError "Expecting value: line 1 column 1 (char 0)").

(** A world where no call on a peer fails. *)
Definition quiet (loads : string -> result value) : env :=
  {| json_loads := loads; io_fault := fun _ => None; aexit_suppresses := false |}.

(** A connection in which [shared_state] has just been created. *)
Definition fresh : state :=
  {| shared_state := [(sid_key, VNone)]; text_buffer := EmptyString; trace := [] |}.

(** A server state before any connection. *)
Definition idle : state :=
  {| shared_state := []; text_buffer := EmptyString; trace := [] |}.

(** The peers of the examples: nothing fails. *)
Definition calm : env := quiet example_loads.

(** A server whose [accept] fails, as when the peer has gone away. *)
Definition refusing : env :=
  {| json_loads := example_loads;
     io_fault := fun t =>
       match last t closing_line with
       | Accept => Some (OtherException "RuntimeError" "WebSocket is not connected")
       | _ => None
       end;
     aexit_suppresses := false |}.

(** The speech-service stream breaking before it yields anything. *)
Definition connection_lost : exn :=
  OtherException "ConnectionClosedError" "no close frame received or sent".

Definition broken_stream : list pump_input := [ToPhonic (StreamRaises connection_lost)].

(** An [audio_chunk] message echoing four bytes of silence. *)
Definition echo_chunk : dict :=
  [("type", VStr "audio_chunk"); ("audio", VStr silence); ("text", VStr "Hi")].

Definition with_stream_id (sid : value) : state :=
  {| shared_state := [(sid_key, sid)]; text_buffer := EmptyString; trace := [] |}.

(* ----------------------------------------------------------------- *)
(** *** More vocabulary: whole runs of the pumps *)

(** An envelope of the outbound protocol that carries the stream
    identifier held in [osid], which is truthy. *)
Definition carries (osid : option value) (envelope : value) : Prop :=
  exists sid,
    osid = Some sid
    /\ truthy sid = true
    /\ (envelope = clear_envelope sid
        \/ exists audio, envelope = media_envelope sid audio).

(** The text an item of the stream adds to the transcript: the [text] of
    an [audio_chunk] when it is a string, nothing otherwise. *)
Definition fragment (item : stream_item) : string :=
  match item with
  | Yield (VDict d) =>
      if has_type d "audio_chunk" then
        match dict_get "text" d with
        | Some (VStr s) => s
        | _ => ""
        end
      else ""
  | _ => ""
  end.

Definition join (l : list string) : string := fold_right append "" l.

(** The frame parses to an inbound media frame that carries [sid] and a
    payload decoding to [bs]. *)
Definition inbound_frame (E : env) (message : string) (sid : value) (bs : list byte)
  : Prop :=
  exists data media payload,
    json_loads E message = Ok data
    /\ is_inbound_media data = true
    /\ getitem data "streamSid" = Ok sid
    /\ getitem data "media" = Ok media
    /\ getitem media "payload" = Ok payload
    /\ Base64.b64decode payload = Ok bs.

(** The frame parses to an inbound media frame carrying [sid]. *)
Definition names_stream (E : env) (ev : recv_event) (sid : value) : Prop :=
  exists message data,
    ev = RecvText message
    /\ json_loads E message = Ok data
    /\ is_inbound_media data = true
    /\ getitem data "streamSid" = Ok sid.

(** More texts the telephony peer can send: an inbound frame whose
    payload is three base64 characters (a quad left open), an inbound
    frame without [streamSid], and a frame of the outbound track. *)
Definition open_quad_text : string := media_frame_text "MZ18ad3ab5" "inbound" "abc".

Definition anonymous_frame : value :=
  VDict [("event", VStr "media");
         ("media", VDict [("track", VStr "inbound"); ("payload", VStr silence)])].

Definition anonymous_text : string :=
  "{" ++ quoted "event" ++ ": " ++ quoted "media" ++ ", "
      ++ quoted "media" ++ ": {" ++ quoted "track" ++ ": " ++ quoted "inbound" ++ ", "
      ++ quoted "payload" ++ ": " ++ quoted silence ++ "}}".

Definition outbound_text : string := media_frame_text "MZ18ad3ab5" "outbound" silence.

Definition more_loads (s : string) : result value :=
  if String.eqb s open_quad_text then
    Ok (media_frame (VStr "MZ18ad3ab5") "inbound" "abc")
  else if String.eqb s anonymous_text then Ok anonymous_frame
  else if String.eqb s outbound_text then
    Ok (media_frame (VStr "MZ18ad3ab5") "outbound" silence)
  else example_loads s.

Definition calm2 : env := quiet more_loads.

Definition input_text_message : dict :=
  [("type", VStr "input_text"); ("text", VStr "What time is it?")].

Definition silent_chunk : dict :=
  [("type", VStr "audio_chunk"); ("text", VStr "Hello")].

(** An envelope of the outbound protocol addressed to stream [sid]. *)
Definition addressed_to (sid : value) (envelope : value) : Prop :=
  envelope = clear_envelope sid \/ exists audio, envelope = media_envelope sid audio.

Definition count_cancels (t : list event) : nat :=
  length (filter (fun ev => match ev with Cancel _ => true | _ => false end) t).

Definition count_closing (t : list event) : nat :=
  length (filter (fun ev =>
                    match ev with
                    | Log INFO [Lit s] => String.eqb s "WebSocket connection closed"
                    | _ => false
                    end) t).

(* ----------------------------------------------------------------- *)
(** *** More vocabulary: the tasks and the event loop *)

Definition state_of (w : wait_outcome) : state :=
  match w with
  | WaitReturns _ st => st
  | WaitPending st => st
  | WaitRaises _ st => st
  end.

(** What the two tasks can do between two points of the handler, having
    received [inputs]: a turn of either pump, whatever becomes of its
    send ([E'] is [E] but for the faults: a turn cut at its send by a
    cancellation is a turn whose send raises [CancelledError]); and the
    log record that ends the [interrupted_response] branch, which is
    written when the send before it completes, possibly after turns of the
    other pump. *)
Inductive pump_steps (E : env) : list pump_input -> state -> state -> Prop :=
| steps_none (st : state) :
    pump_steps E [] st st
| steps_phonic (E' : env) (item : stream_item) (inputs : list pump_input)
    (st st' : state) :
    json_loads E' = json_loads E ->
    pump_steps E inputs (snd (phonic_iteration E' item st)) st' ->
    pump_steps E (ToPhonic item :: inputs) st st'
| steps_twilio (E' : env) (ev : recv_event) (inputs : list pump_input)
    (st st' : state) :
    json_loads E' = json_loads E ->
    pump_steps E inputs (snd (twilio_iteration E' ev st)) st' ->
    pump_steps E (ToTwilio ev :: inputs) st st'
| steps_log (inputs : list pump_input) (st st' : state) :
    pump_steps E inputs (logged (Log INFO [Lit "Response interrupted"]) st) st' ->
    pump_steps E inputs st st'.

(** While the handler is suspended the event loop runs the two pumps and
    nothing else of this connection. *)
Definition runs_the_pumps (E : env) (L : event_loop) : Prop :=
  (forall st, exists inputs, pump_steps E inputs st (state_of (during_wait L st)))
  /\ (forall st, exists inputs, pump_steps E inputs st (during_exit L st)).

(** Whatever is raised at the handler's wait is an [Exception]: the
    handler's own task is not cancelled there. *)
Definition wait_faults_are_exceptions (L : event_loop) : Prop :=
  forall st e st', during_wait L st = WaitRaises e st' -> is_Exception e = true.

Definition status_of (p : task) (t : tasks) : status :=
  match p with
  | PhonicTask => phonic_task t
  | TwilioTask => twilio_task t
  end.

Definition is_log (ev : event) : bool :=
  match ev with
  | Log _ _ => true
  | _ => false
  end.

(** The calls made on the telephony socket, [websocket]: [accept] and
    [send_json] (the source has no [websocket.close()]). *)
Definition on_telephony_socket (ev : event) : bool :=
  match ev with
  | Accept | SendJson _ => true
  | _ => false
  end.

(** The telephony peer hanging up: [receive_text] raises. *)
Definition hung_up : exn := OtherException "WebSocketDisconnect" "(1006, None)".

(** Both peers go away at once: each pump has ended by the time the
    handler is woken. *)
Definition both_gone : list pump_input :=
  [ToPhonic (StreamRaises connection_lost); ToTwilio (RecvRaises hung_up)].

(** The telephony pump records the stream and dies on a payload it cannot
    decode; the speech-service pump forwards one more chunk before the
    handler is woken. *)
Definition late_chunk : list pump_input :=
  [ToTwilio (RecvText open_quad_text); ToPhonic (Yield (VDict echo_chunk))].

(** An event loop under which the handler's task is cancelled while it
    waits, both pumps still running: they take the turns of [sched] before
    that, and the turns of [more] while the handler leaves the client's
    scope. *)
Definition cancelled_while_waiting (E : env) (sched more : list pump_input)
  : event_loop :=
  {| during_wait := fun st =>
       match run_tasks E sched both_suspended st with
       | (t, st') =>
           if done (phonic_task t) || done (twilio_task t) then WaitReturns t st'
           else WaitRaises CancelledError st'
       end;
     during_exit := fun st => snd (run_tasks E more both_suspended st) |}.

(* ================================================================= *)
(** ** Start-up: the TwiML template *)

Module Startup.

(** What can sit at [templates/twilio.xml]. *)
Inductive entry : Type :=
| File (content : string)
| Folder.

(** The part of the working directory the program touches: [templates]
    is missing, is something other than a directory, or is a directory in
    which [twilio.xml] is missing or is an [entry]. *)
Inductive templates : Type :=
| Missing
| NotAFolder
| Present (twilio_xml : option entry).

Record os : Type := {
  templates_dir : templates;
  log : list event
}.

Definition nl : string := String "010"%char EmptyString.

(** The template written by [create_twilio_xml]. *)
Definition xml_content : string :=
  "<?xml version=" ++ quoted "1.0" ++ " encoding=" ++ quoted "UTF-8" ++ "?>" ++ nl
  ++ "<Response>" ++ nl
  ++ "  <Connect>" ++ nl
  ++ "    <Stream url=" ++ quoted "wss://your-server-domain.com/sts" ++ ">" ++ nl
  ++ "      <!-- Update this URL with your public server URL -->" ++ nl
  ++ "    </Stream>" ++ nl
  ++ "  </Connect>" ++ nl
  ++ "</Response>".

Definition xml_path : string := "templates/twilio.xml".

(** [Path("templates").mkdir(exist_ok=True)]. *)
Definition mkdir_exist_ok (o : os) : result unit * os :=
  match templates_dir o with
  | Missing => (Ok tt, {| templates_dir := Present None; log := log o |})
  | NotAFolder =>
      (Raise (OtherException "FileExistsError" "[Errno 17] File exists: 'templates'"), o)
  | Present _ => (Ok tt, o)
  end.

(** [with open(xml_path, "w") as f: f.write(content)]. *)
Definition write_xml (content : string) (o : os) : result unit * os :=
  match templates_dir o with
  | Missing =>
      (Raise (OtherException "FileNotFoundError"
                "[Errno 2] No such file or directory: 'templates/twilio.xml'"), o)
  | NotAFolder =>
      (Raise (OtherException "NotADirectoryError"
                "[Errno 20] Not a directory: 'templates/twilio.xml'"), o)
  | Present (Some Folder) =>
      (Raise (OtherException "IsADirectoryError"
                "[Errno 21] Is a directory: 'templates/twilio.xml'"), o)
  | Present _ =>
      (Ok tt, {| templates_dir := Present (Some (File content)); log := log o |})
  end.

Definition info (msg : list piece) (o : os) : result unit * os :=
  (Ok tt, {| templates_dir := templates_dir o; log := log o ++ [Log INFO msg] |}).

(** [create_twilio_xml]. *)
Definition create_twilio_xml (o : os) : result unit * os :=
  match mkdir_exist_ok o with
  | (Raise e, o1) => (Raise e, o1)
  | (Ok _, o1) =>
      match write_xml xml_content o1 with
      | (Raise e, o2) => (Raise e, o2)
      | (Ok _, o2) =>
          match info [Lit "Created TwiML template at "; Arg (VStr xml_path)] o2 with
          | (_, o3) =>
              info [Lit "IMPORTANT: Update the Stream URL with your public server URL"] o3
          end
      end
  end.

(** [(Path("templates") / "twilio.xml").exists()]. *)
Definition xml_exists (o : os) : bool :=
  match templates_dir o with
  | Present (Some _) => true
  | _ => false
  end.

(** The first step of the [__main__] block. *)
Definition ensure_template (o : os) : result unit * os :=
  if negb (xml_exists o) then create_twilio_xml o else (Ok tt, o).

(** What [serve_twiml] answers: a [FileResponse] for the template path,
    as [text/xml]. *)
Record file_response : Type := {
  path : string;
  media_type : string
}.

Definition serve_twiml : file_response :=
  {| path := xml_path; media_type := "text/xml" |}.

(** The body a [FileResponse] sends for the template path: the file's
    content.  [os.stat] comes first: [FileNotFoundError] is turned into a
    [RuntimeError], any other [OSError] (here [NotADirectoryError], when
    [templates] is not a directory) goes through as it is, and a path
    that is not a regular file is a [RuntimeError] again. *)
Definition body (r : file_response) (o : os) : result string :=
  if String.eqb (path r) xml_path then
    match templates_dir o with
    | Present (Some (File content)) => Ok content
    | Present (Some Folder) =>
        Raise (OtherException "RuntimeError"
                 "File at path templates/twilio.xml is not a file.")
    | NotAFolder =>
        Raise (OtherException "NotADirectoryError"
                 "[Errno 20] Not a directory: 'templates/twilio.xml'")
    | Missing | Present None =>
        Raise (OtherException "RuntimeError"
                 "File at path templates/twilio.xml does not exist.")
    end
  else Raise (OtherException "RuntimeError" "File does not exist.").

End Startup.

(* ================================================================= *)
(** ** Facts about base64 *)

Module Base64Facts.
Import Base64.

Local Open Scope N_scope.
Local Open Scope list_scope.

Lemma below_forallb (f : N -> bool) (k : nat) :
  forallb f (below k) = true ->
  forall n, n < N.of_nat k -> f n = true.
Proof.
  intros H n Hn. rewrite forallb_forall in H. apply H.
  unfold below. apply in_map_iff. exists (N.to_nat n). split.
  - apply N2Nat.id.
  - apply in_seq. lia.
Qed.

Lemma to_N_below (x : byte) : Byte.to_N x < N.of_nat 256.
Proof.
  pose proof (Byte.to_N_bounded x) as H.
  change (N.of_nat 256) with 256. lia.
Qed.

Lemma uchar_to_N (x : byte) : uchar (Byte.to_N x) = x.
Proof.
  unfold uchar. rewrite <- ascii_of_byte_via_N. apply byte_of_ascii_of_byte.
Qed.

Lemma sextet_ok_all (s : N) : s < 64 -> sextet_ok s = true.
Proof.
  intros H. apply (below_forallb sextet_ok 64); [vm_compute; reflexivity | exact H].
Qed.

Lemma check_ab_all (x y : byte) : check_ab (Byte.to_N x) (Byte.to_N y) = true.
Proof.
  assert (H : forallb (fun a => forallb (check_ab a) (below 256)) (below 256) = true)
    by (vm_compute; reflexivity).
  apply (below_forallb (check_ab (Byte.to_N x)) 256); [| apply to_N_below].
  apply (below_forallb (fun a => forallb (check_ab a) (below 256)) 256 H).
  apply to_N_below.
Qed.

Lemma check_bc_all (y z : byte) : check_bc (Byte.to_N y) (Byte.to_N z) = true.
Proof.
  assert (H : forallb (fun b => forallb (check_bc b) (below 256)) (below 256) = true)
    by (vm_compute; reflexivity).
  apply (below_forallb (check_bc (Byte.to_N y)) 256); [| apply to_N_below].
  apply (below_forallb (fun b => forallb (check_bc b) (below 256)) 256 H).
  apply to_N_below.
Qed.

Lemma check_c_all (z : byte) : check_c (Byte.to_N z) = true.
Proof.
  apply (below_forallb check_c 256); [vm_compute; reflexivity | apply to_N_below].
Qed.

Lemma check_tail1_all (x : byte) : check_tail1 (Byte.to_N x) = true.
Proof.
  apply (below_forallb check_tail1 256); [vm_compute; reflexivity | apply to_N_below].
Qed.

Lemma check_tail2_all (y : byte) : check_tail2 (Byte.to_N y) = true.
Proof.
  apply (below_forallb check_tail2 256); [vm_compute; reflexivity | apply to_N_below].
Qed.

(** One turn of the decoder on a character of the alphabet. *)
Lemma a2b_loop_sextet (s : N) rest quad_pos leftchar pads bin_data :
  s < 64 ->
  a2b_loop (b2a s :: rest) quad_pos leftchar pads bin_data =
  if quad_pos =? 0 then a2b_loop rest 1 s 0 bin_data
  else if quad_pos =? 1 then
    a2b_loop rest 2 (N.land s 15) 0
      (bin_data ++ [uchar (N.lor (N.shiftl leftchar 2) (N.shiftr s 4))])
  else if quad_pos =? 2 then
    a2b_loop rest 3 (N.land s 3) 0
      (bin_data ++ [uchar (N.lor (N.shiftl leftchar 4) (N.shiftr s 2))])
  else
    a2b_loop rest 0 0 0 (bin_data ++ [uchar (N.lor (N.shiftl leftchar 6) s)]).
Proof.
  intros Hs. pose proof (sextet_ok_all Hs) as Hok. unfold sextet_ok in Hok.
  apply andb_prop in Hok. destruct Hok as [Hok _].
  apply andb_prop in Hok. destruct Hok as [Htab Hpad].
  apply negb_true_iff in Hpad.
  cbn [a2b_loop]. rewrite Hpad.
  destruct (table_a2b_base64 (b2a s)) as [v|]; [| discriminate].
  apply N.eqb_eq in Htab. subst v. reflexivity.
Qed.

Lemma b2a_ascii (s : N) : s < 64 -> (N_of_ascii (b2a s) <? 128) = true.
Proof.
  intros Hs. pose proof (sextet_ok_all Hs) as Hok. unfold sextet_ok in Hok.
  apply andb_prop in Hok. tauto.
Qed.

Ltac split_checks H :=
  repeat match type of H with
         | (_ && _)%bool = true =>
             let H1 := fresh H in
             apply andb_prop in H; destruct H as [H H1]
         end.

(** A full group of three bytes goes through the decoder unchanged. *)
Lemma a2b_loop_group (x y z : byte) (rest : list ascii) (bin_data : list byte) :
  a2b_loop (list_ascii_of_string (b64encode [x; y; z]) ++ rest) 0 0 0 bin_data =
  a2b_loop rest 0 0 0 (bin_data ++ [x; y; z]).
Proof.
  pose proof (check_ab_all x y) as Hab.
  pose proof (check_bc_all y z) as Hbc.
  pose proof (check_c_all z) as Hc.
  unfold check_ab in Hab. unfold check_bc in Hbc. unfold check_c in Hc.
  cbv zeta in Hab, Hbc, Hc.
  split_checks Hab. split_checks Hbc. split_checks Hc.
  apply N.ltb_lt in Hab, Hab2, Hbc, Hc.
  apply N.eqb_eq in Hab0, Hab1, Hbc0, Hbc1, Hc0.
  cbn [b64encode list_ascii_of_string app].
  rewrite (a2b_loop_sextet _ _ _ _ _ Hab). cbn [N.eqb].
  rewrite (a2b_loop_sextet _ _ _ _ _ Hab2). cbn [N.eqb Pos.eqb].
  rewrite Hab1, Hab0, uchar_to_N.
  rewrite (a2b_loop_sextet _ _ _ _ _ Hbc). cbn [N.eqb Pos.eqb].
  rewrite Hbc0, Hbc1, uchar_to_N.
  rewrite (a2b_loop_sextet _ _ _ _ _ Hc). cbn [N.eqb Pos.eqb].
  rewrite Hc0, uchar_to_N.
  rewrite <- !app_assoc. reflexivity.
Qed.

Lemma list_ind3 (A : Type) (P : list A -> Prop) :
  P [] ->
  (forall a, P [a]) ->
  (forall a b, P [a; b]) ->
  (forall a b c l, P l -> P (a :: b :: c :: l)) ->
  forall l, P l.
Proof.
  intros H0 H1 H2 H3.
  fix IH 1.
  intros [|a [|b [|c l]]].
  - exact H0.
  - apply H1.
  - apply H2.
  - apply H3. apply IH.
Qed.

Lemma b64encode_cons3 (x y z : byte) (bs : list byte) :
  list_ascii_of_string (b64encode (x :: y :: z :: bs)) =
  (list_ascii_of_string (b64encode [x; y; z]) ++ list_ascii_of_string (b64encode bs))%list.
Proof. reflexivity. Qed.

(** Decoding what the encoder wrote gives the bytes back, whatever was
    decoded before. *)
Lemma a2b_loop_b64encode (bs : list byte) :
  forall bin_data,
    a2b_loop (list_ascii_of_string (b64encode bs)) 0 0 0 bin_data =
    Ok (bin_data ++ bs).
Proof.
  induction bs as [|x|x y|x y z bs IH] using list_ind3; intros bin_data.
  - cbn. rewrite app_nil_r. reflexivity.
  - pose proof (check_ab_all x x) as Hab. pose proof (check_tail1_all x) as Ht.
    unfold check_ab in Hab. unfold check_tail1 in Ht. cbv zeta in Hab, Ht.
    split_checks Hab. split_checks Ht.
    apply N.ltb_lt in Hab, Ht. apply N.eqb_eq in Ht0.
    cbn [b64encode list_ascii_of_string].
    rewrite (a2b_loop_sextet _ _ _ _ _ Hab). cbn [N.eqb].
    rewrite (a2b_loop_sextet _ _ _ _ _ Ht). cbn [N.eqb Pos.eqb].
    rewrite Ht0, uchar_to_N. reflexivity.
  - pose proof (check_ab_all x y) as Hab. pose proof (check_tail2_all y) as Ht.
    unfold check_ab in Hab. unfold check_tail2 in Ht. cbv zeta in Hab, Ht.
    split_checks Hab. split_checks Ht.
    apply N.ltb_lt in Hab, Hab2, Ht. apply N.eqb_eq in Hab0, Hab1, Ht0.
    cbn [b64encode list_ascii_of_string].
    rewrite (a2b_loop_sextet _ _ _ _ _ Hab). cbn [N.eqb].
    rewrite (a2b_loop_sextet _ _ _ _ _ Hab2). cbn [N.eqb Pos.eqb].
    rewrite Hab1, Hab0, uchar_to_N.
    rewrite (a2b_loop_sextet _ _ _ _ _ Ht). cbn [N.eqb Pos.eqb].
    rewrite Ht0, uchar_to_N.
    rewrite <- !app_assoc. reflexivity.
  - rewrite b64encode_cons3, a2b_loop_group, IH.
    rewrite <- !app_assoc. reflexivity.
Qed.

(** The encoder writes ASCII only. *)
Lemma b64encode_ascii (bs : list byte) :
  forallb (fun c => N_of_ascii c <? 128) (list_ascii_of_string (b64encode bs)) = true.
Proof.
  induction bs as [|x|x y|x y z bs IH] using list_ind3.
  - reflexivity.
  - pose proof (check_ab_all x x) as Hab. pose proof (check_tail1_all x) as Ht.
    unfold check_ab in Hab. unfold check_tail1 in Ht. cbv zeta in Hab, Ht.
    split_checks Hab. split_checks Ht.
    apply N.ltb_lt in Hab, Ht.
    cbn [b64encode list_ascii_of_string forallb].
    rewrite (b2a_ascii Hab), (b2a_ascii Ht). reflexivity.
  - pose proof (check_ab_all x y) as Hab. pose proof (check_tail2_all y) as Ht.
    unfold check_ab in Hab. unfold check_tail2 in Ht. cbv zeta in Hab, Ht.
    split_checks Hab. split_checks Ht.
    apply N.ltb_lt in Hab, Hab2, Ht.
    cbn [b64encode list_ascii_of_string forallb].
    rewrite (b2a_ascii Hab), (b2a_ascii Hab2), (b2a_ascii Ht). reflexivity.
  - pose proof (check_ab_all x y) as Hab.
    pose proof (check_bc_all y z) as Hbc.
    pose proof (check_c_all z) as Hc.
    unfold check_ab in Hab. unfold check_bc in Hbc. unfold check_c in Hc.
    cbv zeta in Hab, Hbc, Hc.
    split_checks Hab. split_checks Hbc. split_checks Hc.
    apply N.ltb_lt in Hab, Hab2, Hbc, Hc.
    cbn [b64encode list_ascii_of_string forallb].
    rewrite (b2a_ascii Hab), (b2a_ascii Hab2), (b2a_ascii Hbc), (b2a_ascii Hc).
    exact IH.
Qed.

(** [base64.b64decode(base64.b64encode(bs).decode())] is [bs]. *)
Lemma b64decode_b64encode (bs : list byte) :
  b64decode (VStr (b64encode bs)) = Ok bs.
Proof.
  unfold b64decode, b64decode_str. cbv zeta.
  rewrite b64encode_ascii. unfold a2b_base64.
  rewrite a2b_loop_b64encode. reflexivity.
Qed.

End Base64Facts.


(* ================================================================= *)
(** ** Facts about dicts and traces *)

Lemma dict_get_set_same (k : string) (v : value) (d : dict) :
  dict_get k (dict_set k v d) = Some v.
Proof.
  induction d as [|[k' v'] d IH]; cbn.
  - rewrite String.eqb_refl. reflexivity.
  - destruct (String.eqb k k') eqn:Hk; cbn; rewrite Hk; [reflexivity | exact IH].
Qed.

Lemma dict_get_set_other (k k' : string) (v : value) (d : dict) :
  String.eqb k k' = false ->
  dict_get k (dict_set k' v d) = dict_get k d.
Proof.
  intros Hk. induction d as [|[k0 v0] d IH]; cbn.
  - rewrite Hk. reflexivity.
  - destruct (String.eqb k' k0) eqn:Hk0; cbn.
    + apply String.eqb_eq in Hk0. subst k0. rewrite Hk. reflexivity.
    + destruct (String.eqb k k0); [reflexivity | exact IH].
Qed.

Lemma sent_json_app (t u : list event) :
  sent_json (t ++ u) = (sent_json t ++ sent_json u)%list.
Proof. apply flat_map_app. Qed.

Lemma sent_audio_app (t u : list event) :
  sent_audio (t ++ u) = (sent_audio t ++ sent_audio u)%list.
Proof. apply flat_map_app. Qed.

Lemma flushes_app (t u : list event) :
  flushes (t ++ u) = (flushes t ++ flushes u)%list.
Proof. apply flat_map_app. Qed.

Lemma handler_errors_app (t u : list event) :
  handler_errors (t ++ u) = (handler_errors t ++ handler_errors u)%list.
Proof. apply flat_map_app. Qed.

Lemma count_exits_app (t u : list event) :
  count_exits (t ++ u) = count_exits t + count_exits u.
Proof. unfold count_exits. rewrite filter_app, length_app. reflexivity. Qed.

(** [any(punc in s for punc in ".!?")] says that one of the three
    characters occurs in [s]. *)
Lemma any_punc_spec (s : string) :
  any_punc s = true <->
  In "."%char (list_ascii_of_string s)
  \/ In "!"%char (list_ascii_of_string s)
  \/ In "?"%char (list_ascii_of_string s).
Proof.
  assert (Hin : forall c, char_in c s = true <-> In c (list_ascii_of_string s)).
  { intros c. unfold char_in. rewrite existsb_exists. split.
    - intros [x [Hx Heq]]. apply Ascii.eqb_eq in Heq. subst x. exact Hx.
    - intros Hc. exists c. split; [exact Hc | apply Ascii.eqb_refl]. }
  unfold any_punc. cbn [list_ascii_of_string existsb].
  rewrite !orb_true_iff, !Hin. intuition discriminate.
Qed.

(* ================================================================= *)
(** ** Facts about the pumps *)

Ltac destruct_match :=
  match goal with
  | |- context [match ?x with _ => _ end] =>
      match x with
      | context [match _ with _ => _ end] => fail 1
      | _ => destruct x eqn:?
      end
  end.

Ltac run_m :=
  unfold phonic_iteration, phonic_body, twilio_iteration, twilio_body,
    iadd_text_buffer, call, logger_info, logger_error,
    shared_getitem, shared_setitem, read_text_buffer, set_text_buffer,
    emit, bind, ret, raise, lift in *;
  cbn [fst snd shared_state text_buffer trace] in *.

Ltac cases_m :=
  repeat (destruct_match; cbn [fst snd shared_state text_buffer trace] in *).

Ltac simp_m :=
  cbn [fst snd shared_state text_buffer trace negb andb orb truthy
       eq_str String.eqb Ascii.eqb Bool.eqb] in *.

Ltac rew_hyp :=
  match goal with
  | H : ?l = _ |- context [?l] =>
      lazymatch l with
      | _ _ => rewrite H
      end
  end.

Ltac auto_m := repeat (first [ rew_hyp | destruct_match ]; simp_m).

Ltac cases_with H :=
  repeat (first [ rewrite H; cbn [truthy negb] | destruct_match ];
          cbn [fst snd shared_state text_buffer trace] in *).

Section PumpFacts.

Variable E : env.

(** The speech-service pump never writes the shared dict. *)
Lemma phonic_body_shared_state message st :
  shared_state (snd (phonic_body E message st)) = shared_state st.
Proof. run_m. cases_m; reflexivity. Qed.

Lemma phonic_iteration_shared_state item st :
  shared_state (snd (phonic_iteration E item st)) = shared_state st.
Proof.
  destruct item as [message| |e]; try reflexivity.
  pose proof (phonic_body_shared_state message st) as H.
  unfold phonic_iteration, bind, ret.
  destruct (phonic_body E message st) as [[[]|e] st']; exact H.
Qed.

(** The telephony pump never touches the transcript buffer. *)
Lemma twilio_iteration_text_buffer ev st :
  text_buffer (snd (twilio_iteration E ev st)) = text_buffer st.
Proof. run_m. cases_m; reflexivity. Qed.

(** One message keeps the buffer free of sentence punctuation. *)
Lemma phonic_body_no_punc message st :
  any_punc (text_buffer st) = false ->
  any_punc (text_buffer (snd (phonic_body E message st))) = false.
Proof. intros H. run_m. cases_m; auto. Qed.

Lemma phonic_iteration_no_punc item st :
  any_punc (text_buffer st) = false ->
  any_punc (text_buffer (snd (phonic_iteration E item st))) = false.
Proof.
  intros H. destruct item as [message| |e]; try exact H.
  pose proof (phonic_body_no_punc message st H) as H'.
  unfold phonic_iteration, bind, ret.
  destruct (phonic_body E message st) as [[[]|e] st']; exact H'.
Qed.

Lemma phonic_loop_no_punc items :
  forall st,
    any_punc (text_buffer st) = false ->
    any_punc (text_buffer (snd (phonic_loop E items st))) = false.
Proof.
  induction items as [|item rest IH]; intros st H; [exact H |].
  pose proof (phonic_iteration_no_punc item st H) as H'.
  cbn [phonic_loop].
  destruct (phonic_iteration E item st) as [[[|]|e] st']; cbn [snd] in *;
    [apply IH; exact H' | exact H' | exact H'].
Qed.

(** C10.  Whatever the stream delivers (messages of any shape, its end or
    a failure), and whatever the peers do, the transcript buffer holds none
    of the characters [.], [!], [?] when [process_phonic_messages] stops
    or waits for the next message. *)
Theorem text_buffer_never_keeps_punctuation (items : list stream_item) (st : state) :
  any_punc (text_buffer (snd (process_phonic_messages E items st))) = false.
Proof.
  unfold process_phonic_messages. cbn [set_text_buffer].
  apply phonic_loop_no_punc. reflexivity.
Qed.

(** C2.  While the shared dict still holds [None] for the stream
    identifier, an [audio_chunk] message hands nothing to
    [websocket.send_json] and leaves the shared dict as it was; and the
    outcome of the step (result and state) is the same whatever audio the
    message carries, so nothing of the audio is kept for later. *)
Theorem audio_chunk_dropped_while_unset (d : dict) (st : state) :
  has_type d "audio_chunk" = true ->
  stream_id st = Some VNone ->
  sent_json (trace (snd (phonic_body E (VDict d) st))) = sent_json (trace st)
  /\ shared_state (snd (phonic_body E (VDict d) st)) = shared_state st
  /\ forall audio audio' : value,
       phonic_body E (VDict (dict_set "audio" audio d)) st =
       phonic_body E (VDict (dict_set "audio" audio' d)) st.
Proof.
  unfold has_type, stream_id. intros Hty Hsid.
  split; [| split].
  - run_m. unfold get, getitem in *. cbn [shared_state].
    destruct (dict_get "type" d) as [ty|]; [| discriminate].
    rewrite Hty.
    cases_with Hsid; rewrite ?sent_json_app; cbn; rewrite ?app_nil_r;
      reflexivity.
  - apply phonic_body_shared_state.
  - intros audio audio'. run_m. unfold get, getitem. cbn [shared_state].
    rewrite !dict_get_set_same.
    rewrite !dict_get_set_other by reflexivity.
    destruct (dict_get "type" d) as [ty|]; [| discriminate].
    rewrite Hty.
    cases_with Hsid; reflexivity.
Qed.

Lemma has_type_eq (d : dict) (ty : string) :
  has_type d ty = true -> dict_get "type" d = Some (VStr ty).
Proof.
  unfold has_type, eq_str. intros H.
  destruct (dict_get "type" d) as [[]|]; try discriminate.
  apply String.eqb_eq in H. subst. reflexivity.
Qed.

(** C6.  With a truthy stream identifier [sid] recorded, an
    [interrupted_response] message hands exactly one envelope to
    [websocket.send_json], [{"event": "clear", "streamSid": sid}], and
    changes neither the transcript buffer nor the shared dict. *)
Theorem interrupted_response_sends_one_clear (d : dict) (st : state) (sid : value) :
  has_type d "interrupted_response" = true ->
  stream_id st = Some sid ->
  truthy sid = true ->
  sent_json (trace (snd (phonic_body E (VDict d) st))) =
    (sent_json (trace st) ++ [clear_envelope sid])%list
  /\ text_buffer (snd (phonic_body E (VDict d) st)) = text_buffer st
  /\ shared_state (snd (phonic_body E (VDict d) st)) = shared_state st.
Proof.
  intros Hty Hsid Htrue. apply has_type_eq in Hty. unfold stream_id in Hsid.
  split; [| split].
  - run_m. unfold get, getitem. rewrite Hty. cbn [eq_str String.eqb Ascii.eqb Bool.eqb].
    cbn [shared_state]. rewrite Hsid, Htrue. cbn [shared_state]. rewrite Hsid.
    cases_m; rewrite ?sent_json_app; cbn; rewrite ?app_nil_r; reflexivity.
  - run_m. unfold get, getitem. rewrite Hty. cbn [eq_str String.eqb Ascii.eqb Bool.eqb].
    cases_m; reflexivity.
  - apply phonic_body_shared_state.
Qed.

(** What an [audio_finished] message does: nothing when the buffer is
    empty, otherwise one log record and an empty buffer. *)
Lemma audio_finished_step (d : dict) (st : state) :
  has_type d "audio_finished" = true ->
  phonic_body E (VDict d) st =
  (Ok tt,
   if String.eqb (text_buffer st) "" then st
   else {| shared_state := shared_state st;
           text_buffer := "";
           trace := trace st ++ [Log INFO [Lit "Assistant: "; Arg (VStr (text_buffer st))]] |}).
Proof.
  intros Hty. apply has_type_eq in Hty.
  run_m. unfold get. rewrite Hty. cbn [eq_str String.eqb Ascii.eqb Bool.eqb].
  destruct (String.eqb (text_buffer st) ""); reflexivity.
Qed.

(** What an [audio_chunk] message with a text fragment does to the
    transcript, whatever happens to its audio afterwards. *)
Lemma audio_chunk_text_step (d : dict) (st : state) (audio : value) (s : string) :
  has_type d "audio_chunk" = true ->
  dict_get "audio" d = Some audio ->
  dict_get "text" d = Some (VStr s) ->
  s <> "" \/ any_punc (text_buffer st) = false ->
  let st' := snd (phonic_body E (VDict d) st) in
  let appended := text_buffer st ++ s in
  if any_punc appended
  then text_buffer st' = ""
       /\ flushes (trace st') = (flushes (trace st) ++ [appended])%list
  else text_buffer st' = appended
       /\ flushes (trace st') = flushes (trace st).
Proof.
  intros Hty Haudio Htext Hs. apply has_type_eq in Hty.
  cbv zeta. run_m. unfold get, getitem. rewrite Hty, Haudio, Htext.
  cbn [eq_str String.eqb Ascii.eqb Bool.eqb truthy].
  destruct (String.eqb s "") eqn:Hempty; cbn [negb].
  - apply String.eqb_eq in Hempty. subst s.
    destruct Hs as [Hs | Hs]; [congruence |].
    assert (Happ : text_buffer st ++ "" = text_buffer st).
    { clear. induction (text_buffer st) as [|c b IH]; cbn; [reflexivity | now rewrite IH]. }
    rewrite Happ, Hs.
    cases_m; try congruence; rewrite ?flushes_app; cbn; rewrite ?app_nil_r; auto.
  - destruct (any_punc (text_buffer st ++ s)) eqn:Hp;
      cases_m; try congruence; rewrite ?flushes_app; cbn; rewrite ?app_nil_r; auto.
Qed.

(** An [audio_chunk] with a non-empty text fragment when no send fails. *)
Lemma audio_chunk_quiet_iteration (a v : value) (s : string) (st : state) :
  (forall t, io_fault E t = None) ->
  stream_id st = Some v ->
  s <> "" ->
  phonic_iteration E (Yield (audio_chunk a s)) st =
  (Ok Continue,
   {| shared_state := shared_state st;
      text_buffer :=
        if any_punc (text_buffer st ++ s) then "" else text_buffer st ++ s;
      trace :=
        (trace st
         ++ (if any_punc (text_buffer st ++ s)
             then [Log INFO [Lit "Assistant: "; Arg (VStr (text_buffer st ++ s))]]
             else [])
         ++ (if truthy v then [SendJson (media_envelope v a)] else []))%list |}).
Proof.
  intros Hq Hsid Hs. unfold stream_id in Hsid.
  assert (Hne : String.eqb s "" = false).
  { destruct s; [congruence | reflexivity]. }
  run_m. unfold get, getitem, audio_chunk.
  cbn [dict_get String.eqb Ascii.eqb Bool.eqb eq_str truthy].
  rewrite Hne. cbn -[any_punc append].
  destruct (any_punc (text_buffer st ++ s)); cbn -[any_punc append];
    rewrite Hsid; destruct (truthy v); cbn -[any_punc append];
    rewrite ?Hsid, ?Hq, ?app_nil_r, <- ?app_assoc; try reflexivity.
  all: destruct st; reflexivity.
Qed.

(** C4.  The fragments [Hello], [ there], [.] arriving as three
    [audio_chunk] messages give exactly one completed-utterance record,
    [Hello there.], and leave the buffer empty.  In general a text
    fragment is appended to the buffer, and the buffer is logged and
    emptied exactly when it then holds one of [.], [!], [?]. *)
Theorem transcript_flushed_on_punctuation :
  (forall (a1 a2 a3 v : value) (st : state),
      (forall t, io_fault E t = None) ->
      stream_id st = Some v ->
      let r := process_phonic_messages E
                 [Yield (audio_chunk a1 "Hello");
                  Yield (audio_chunk a2 " there");
                  Yield (audio_chunk a3 ".")] st in
      fst r = Suspended
      /\ flushes (trace (snd r)) = (flushes (trace st) ++ ["Hello there."])%list
      /\ text_buffer (snd r) = "")
  /\ (forall (d : dict) (st : state) (audio : value) (s : string),
      has_type d "audio_chunk" = true ->
      dict_get "audio" d = Some audio ->
      dict_get "text" d = Some (VStr s) ->
      s <> "" \/ any_punc (text_buffer st) = false ->
      let st' := snd (phonic_body E (VDict d) st) in
      let appended := text_buffer st ++ s in
      (any_punc appended = true <->
         In "."%char (list_ascii_of_string appended)
         \/ In "!"%char (list_ascii_of_string appended)
         \/ In "?"%char (list_ascii_of_string appended))
      /\ if any_punc appended
         then text_buffer st' = ""
              /\ flushes (trace st') = (flushes (trace st) ++ [appended])%list
         else text_buffer st' = appended
              /\ flushes (trace st') = flushes (trace st)).
Proof.
  split.
  - intros a1 a2 a3 v st Hq Hsid. unfold stream_id in Hsid.
    unfold process_phonic_messages. cbn [set_text_buffer phonic_loop].
    do 3 (erewrite audio_chunk_quiet_iteration;
          [cbv beta iota | exact Hq | exact Hsid | discriminate]).
    cbn [fst snd text_buffer trace append any_punc existsb list_ascii_of_string
         char_in Ascii.eqb Bool.eqb orb].
    destruct (truthy v); cbn -[flushes]; rewrite ?app_nil_r, ?flushes_app; cbn;
      rewrite ?app_nil_r; auto.
  - intros d st audio s Hty Haudio Htext Hs. cbv zeta. split.
    + apply any_punc_spec.
    + apply (audio_chunk_text_step d st Hty Haudio Htext Hs).
Qed.

(** C5.  The fragments [Wait], [ for it] followed by [audio_finished]:
    nothing is flushed by the two chunks, and [audio_finished] flushes
    once, with [Wait for it].  In general [audio_finished] logs and empties
    the buffer exactly when the buffer is not empty, and does nothing
    otherwise. *)
Theorem audio_finished_flushes_the_rest :
  (forall (a1 a2 v : value) (st : state),
      (forall t, io_fault E t = None) ->
      stream_id st = Some v ->
      let chunks := [Yield (audio_chunk a1 "Wait"); Yield (audio_chunk a2 " for it")] in
      let r2 := process_phonic_messages E chunks st in
      let r3 := process_phonic_messages E (chunks ++ [Yield audio_finished]) st in
      flushes (trace (snd r2)) = flushes (trace st)
      /\ text_buffer (snd r2) = "Wait for it"
      /\ trace (snd r3) =
           (trace (snd r2) ++ [Log INFO [Lit "Assistant: "; Arg (VStr "Wait for it")]])%list
      /\ flushes (trace (snd r3)) = (flushes (trace st) ++ ["Wait for it"])%list
      /\ text_buffer (snd r3) = "")
  /\ (forall (d : dict) (st : state),
      has_type d "audio_finished" = true ->
      phonic_body E (VDict d) st =
      (Ok tt,
       if String.eqb (text_buffer st) "" then st
       else {| shared_state := shared_state st;
               text_buffer := "";
               trace := trace st ++
                        [Log INFO [Lit "Assistant: "; Arg (VStr (text_buffer st))]] |})).
Proof.
  split.
  - intros a1 a2 v st Hq Hsid. unfold stream_id in Hsid.
    cbv zeta. unfold process_phonic_messages. cbn [set_text_buffer phonic_loop app].
    do 2 (erewrite audio_chunk_quiet_iteration;
          [cbv beta iota | exact Hq | exact Hsid | discriminate]).
    cbn [phonic_iteration]. unfold bind at 1.
    rewrite (@audio_finished_step [("type", VStr "audio_finished")] _ eq_refl).
    cbn [fst snd text_buffer trace append any_punc existsb list_ascii_of_string
         char_in Ascii.eqb Bool.eqb orb String.eqb ret shared_state].
    destruct (truthy v); cbn -[flushes]; rewrite ?app_nil_r, ?flushes_app; cbn;
      rewrite ?app_nil_r; auto.
  - intros d st Hty. apply audio_finished_step. exact Hty.
Qed.

(* ----------------------------------------------------------------- *)
(** *** The telephony pump and the stream identifier *)

(** A frame, whatever it holds, leaves a truthy stream identifier alone. *)
Lemma twilio_body_keeps_shared_state data st sid :
  stream_id st = Some sid ->
  truthy sid = true ->
  shared_state (snd (twilio_body E data st)) = shared_state st.
Proof.
  unfold stream_id. intros Hsid Htrue.
  run_m. unfold getitem, get.
  repeat (first [ rewrite Hsid | rewrite Htrue | destruct_match ];
          cbn [fst snd shared_state text_buffer trace negb] in *);
    reflexivity.
Qed.

Lemma twilio_iteration_keeps_shared_state ev st sid :
  stream_id st = Some sid ->
  truthy sid = true ->
  shared_state (snd (twilio_iteration E ev st)) = shared_state st.
Proof.
  intros Hsid Htrue.
  pose proof (fun data => twilio_body_keeps_shared_state data st Hsid Htrue) as Hbody.
  unfold twilio_iteration.
  destruct ev as [message|e].
  - destruct (json_loads E message) as [data|e].
    + specialize (Hbody data). unfold bind, ret.
      destruct (twilio_body E data st) as [[[]|e] st']; exact Hbody.
    + run_m. cases_m; reflexivity.
  - run_m. cases_m; reflexivity.
Qed.

Lemma process_twilio_messages_keeps_shared_state evs sid :
  forall st,
    stream_id st = Some sid ->
    truthy sid = true ->
    shared_state (snd (process_twilio_messages E evs st)) = shared_state st.
Proof.
  induction evs as [|ev rest IH]; intros st Hsid Htrue; [reflexivity |].
  pose proof (twilio_iteration_keeps_shared_state ev st Hsid Htrue) as Hit.
  cbn [process_twilio_messages].
  destruct (twilio_iteration E ev st) as [[[|]|e] st']; cbn [snd] in *; try exact Hit.
  rewrite IH; [exact Hit | unfold stream_id; rewrite Hit; exact Hsid | exact Htrue].
Qed.

(** Both pumps together, in any interleaving. *)
Lemma run_tasks_keeps_shared_state sched sid :
  forall t st,
    stream_id st = Some sid ->
    truthy sid = true ->
    shared_state (snd (run_tasks E sched t st)) = shared_state st.
Proof.
  induction sched as [|[item|ev] rest IH]; intros t st Hsid Htrue; cbn [run_tasks].
  - reflexivity.
  - destruct (done (phonic_task t)); [apply IH; assumption |].
    pose proof (phonic_iteration_shared_state item st) as Hit.
    destruct (phonic_iteration E item st) as [r st']; cbn [snd] in *.
    rewrite IH; [exact Hit | unfold stream_id; rewrite Hit; exact Hsid | exact Htrue].
  - destruct (done (twilio_task t)); [apply IH; assumption |].
    pose proof (twilio_iteration_keeps_shared_state ev st Hsid Htrue) as Hit.
    destruct (twilio_iteration E ev st) as [r st']; cbn [snd] in *.
    rewrite IH; [exact Hit | unfold stream_id; rewrite Hit; exact Hsid | exact Htrue].
Qed.

(** What [is_inbound_media] says about the frame. *)
Lemma is_inbound_media_inv data :
  is_inbound_media data = true ->
  exists d m,
    data = VDict d
    /\ dict_get "event" d = Some (VStr "media")
    /\ dict_get "media" d = Some (VDict m)
    /\ dict_get "track" m = Some (VStr "inbound").
Proof.
  unfold is_inbound_media, getitem, get.
  destruct data as [| | | | |l|d]; try discriminate.
  destruct (dict_get "event" d) as [event|] eqn:Hev; [| discriminate].
  intros H. apply andb_prop in H. destruct H as [Hmedia Htrack].
  destruct event; try discriminate. cbn [eq_str] in Hmedia.
  apply String.eqb_eq in Hmedia. subst s.
  destruct (dict_get "media" d) as [media|] eqn:Hm; [| discriminate].
  destruct media as [| | | | |l|m]; try discriminate.
  destruct (dict_get "track" m) as [track|] eqn:Ht; [| discriminate].
  destruct track; try discriminate. cbn [eq_str] in Htrack.
  apply String.eqb_eq in Htrack. subst s.
  exists d, m. auto.
Qed.

(** The first inbound media frame records its [streamSid]. *)
Lemma twilio_body_records_stream_id data sid st :
  is_inbound_media data = true ->
  getitem data "streamSid" = Ok sid ->
  stream_id st = Some VNone ->
  stream_id (snd (twilio_body E data st)) = Some sid.
Proof.
  intros Hin Hframe Hsid.
  destruct (is_inbound_media_inv data Hin) as (d & m & -> & Hev & Hm & Ht).
  unfold stream_id in *. unfold getitem in Hframe.
  destruct (dict_get "streamSid" d) as [v|] eqn:Hv; [| discriminate].
  injection Hframe as ->.
  run_m. unfold getitem, get. auto_m; apply dict_get_set_same.
Qed.

(** C1, as amended.  When the first inbound media frame carries a truthy
    [streamSid] (a non-empty string), that value is what the shared dict
    holds after the pump has gone through the frame and any frames after
    it; and once the dict holds it, no interleaving of the two pumps
    changes it. *)
Theorem stream_id_first_writer_wins
    (message : string) (data sid : value) (rest : list recv_event) (st : state) :
  json_loads E message = Ok data ->
  is_inbound_media data = true ->
  getitem data "streamSid" = Ok sid ->
  truthy sid = true ->
  stream_id st = Some VNone ->
  stream_id (snd (process_twilio_messages E (RecvText message :: rest) st)) = Some sid
  /\ forall (sched : list pump_input) (t : tasks) (st' : state),
       stream_id st' = Some sid ->
       stream_id (snd (run_tasks E sched t st')) = Some sid.
Proof.
  intros Hloads Hin Hframe Htrue Hsid. split.
  - pose proof (twilio_body_records_stream_id data st Hin Hframe Hsid) as Hrec.
    cbn [process_twilio_messages]. unfold twilio_iteration. rewrite Hloads.
    unfold bind at 1. unfold ret.
    destruct (twilio_body E data st) as [[[]|e] st']; cbn [snd after_iteration] in *.
    + unfold stream_id.
      rewrite (process_twilio_messages_keeps_shared_state rest st' Hrec Htrue).
      exact Hrec.
    + exact Hrec.
  - intros sched t st' Hsid'. unfold stream_id.
    rewrite (run_tasks_keeps_shared_state sched t st' Hsid' Htrue). exact Hsid'.
Qed.

(* ----------------------------------------------------------------- *)
(** *** Audio through the bridge *)

(** An inbound media frame hands to [client.send_audio] the decoded
    payload and nothing else; a payload that does not decode hands over
    nothing. *)
Lemma inbound_audio_is_the_decoded_payload data media payload cur st :
  is_inbound_media data = true ->
  getitem data "media" = Ok media ->
  getitem media "payload" = Ok payload ->
  stream_id st = Some cur ->
  truthy cur = true \/ (exists sid, getitem data "streamSid" = Ok sid) ->
  sent_audio (trace (snd (twilio_body E data st))) =
  (sent_audio (trace st) ++
   match Base64.b64decode payload with
   | Ok bs => [np_frombuffer_uint8 bs]
   | Raise _ => []
   end)%list.
Proof.
  intros Hin Hmedia Hpayload Hsid Hkey.
  destruct (is_inbound_media_inv data Hin) as (d & m & -> & Hev & Hm & Ht).
  unfold stream_id in *. unfold getitem in Hmedia, Hpayload, Hkey.
  rewrite Hm in Hmedia. injection Hmedia as <-.
  destruct (dict_get "payload" m) as [p|] eqn:Hp; [| discriminate].
  injection Hpayload as ->.
  destruct (Base64.b64decode payload) as [bs|e] eqn:Hdec;
    destruct (truthy cur) eqn:Hcur.
  - run_m. unfold getitem, get.
    auto_m; rewrite ?sent_audio_app; cbn; rewrite ?app_nil_r; reflexivity.
  - destruct Hkey as [Hkey | [sid Hkey]]; [discriminate |].
    destruct (dict_get "streamSid" d) as [v|] eqn:Hv; [| discriminate].
    run_m. unfold getitem, get.
    auto_m; rewrite ?sent_audio_app; cbn; rewrite ?app_nil_r; reflexivity.
  - run_m. unfold getitem, get.
    auto_m; rewrite ?sent_audio_app; cbn; rewrite ?app_nil_r; reflexivity.
  - destruct Hkey as [Hkey | [sid Hkey]]; [discriminate |].
    destruct (dict_get "streamSid" d) as [v|] eqn:Hv; [| discriminate].
    run_m. unfold getitem, get.
    auto_m; rewrite ?sent_audio_app; cbn; rewrite ?app_nil_r; reflexivity.
Qed.

(** An [audio_chunk] met with a truthy stream identifier recorded puts
    its audio, as it came, into one media envelope. *)
Lemma audio_chunk_forwarded (d : dict) (audio sid : value) (st : state) :
  has_type d "audio_chunk" = true ->
  dict_get "audio" d = Some audio ->
  dict_get "text" d = None \/ (exists s, dict_get "text" d = Some (VStr s)) ->
  stream_id st = Some sid ->
  truthy sid = true ->
  sent_json (trace (snd (phonic_body E (VDict d) st))) =
  (sent_json (trace st) ++ [media_envelope sid audio])%list.
Proof.
  intros Hty Haudio Htext Hsid Htrue. apply has_type_eq in Hty.
  unfold stream_id in Hsid.
  destruct Htext as [Htext | [s Htext]].
  - run_m. unfold get, getitem.
    auto_m; rewrite ?sent_json_app; cbn; rewrite ?app_nil_r; reflexivity.
  - destruct (String.eqb s "") eqn:Hs;
      destruct (any_punc (text_buffer st ++ s)) eqn:Hp;
      run_m; unfold get, getitem;
      auto_m; rewrite ?sent_json_app; cbn; rewrite ?app_nil_r; reflexivity.
Qed.

(** C3.  The bytes of an inbound media frame reach [client.send_audio] as
    the base64 decoding of [media.payload], value for value.  When the
    speech service sends the same bytes back in an [audio_chunk] (its
    [audio] field being their base64 text) and a stream identifier is
    recorded, the telephony peer is sent one media envelope with that
    identifier whose payload is the base64 encoding of the bytes, which
    decodes to the very same bytes. *)
Theorem audio_round_trip
    (data media payload cur : value) (bs : list byte) (st : state)
    (d : dict) (sid : value) (st2 : state) :
  is_inbound_media data = true ->
  getitem data "media" = Ok media ->
  getitem media "payload" = Ok payload ->
  Base64.b64decode payload = Ok bs ->
  stream_id st = Some cur ->
  truthy cur = true \/ (exists s, getitem data "streamSid" = Ok s) ->
  has_type d "audio_chunk" = true ->
  dict_get "audio" d = Some (VStr (Base64.b64encode bs)) ->
  dict_get "text" d = None \/ (exists s, dict_get "text" d = Some (VStr s)) ->
  stream_id st2 = Some sid ->
  truthy sid = true ->
  sent_audio (trace (snd (twilio_body E data st))) =
    (sent_audio (trace st) ++ [map Byte.to_N bs])%list
  /\ sent_json (trace (snd (phonic_body E (VDict d) st2))) =
       (sent_json (trace st2) ++ [media_envelope sid (VStr (Base64.b64encode bs))])%list
  /\ Base64.b64decode (VStr (Base64.b64encode bs)) = Ok bs.
Proof.
  intros Hin Hmedia Hpayload Hdec Hcur Hkey Hty Haudio Htext Hsid Htrue.
  split; [| split].
  - rewrite (inbound_audio_is_the_decoded_payload data st Hin Hmedia Hpayload Hcur Hkey).
    rewrite Hdec. reflexivity.
  - apply audio_chunk_forwarded; assumption.
  - apply Base64Facts.b64decode_b64encode.
Qed.

(* ----------------------------------------------------------------- *)
(** *** The receive loop *)



End PumpFacts.

(* ================================================================= *)
(** ** Facts about the connection handler *)

Ltac run_h :=
  unfold websocket_endpoint, except_finally, try_block, async_with, after_wait,
    aexit, cancel_pending,
    call, logger_info, logger_error, set_text_buffer, emit, bind, ret, raise, lift in *;
  cbn [fst snd shared_state text_buffer trace] in *.

Ltac split_pairs :=
  repeat match goal with
         | Hp : (_, _) = (_, _) |- _ => injection Hp as ? ?; subst
         end.

Section HandlerFacts.

Variable E : env.

(** The handler when the connection is refused at [accept]. *)
Lemma handler_accept_fails L st e :
  io_fault E (trace st ++ [Accept]) = Some e ->
  is_Exception e = true ->
  websocket_endpoint E L st =
  (Returned,
   {| shared_state := shared_state st;
      text_buffer := text_buffer st;
      trace := trace st ++ [Accept; error_line e; closing_line] |}).
Proof.
  intros Hf He. run_h. rewrite Hf, He. cbn.
  rewrite <- !app_assoc. reflexivity.
Qed.

(** The handler when the speech-service client cannot be opened. *)
Lemma handler_enter_fails L st e :
  io_fault E (trace st ++ [Accept]) = None ->
  io_fault E (trace st ++ [Accept; accepted_line; EnterClient]) = Some e ->
  is_Exception e = true ->
  websocket_endpoint E L st =
  (Returned,
   {| shared_state := [(sid_key, VNone)];
      text_buffer := text_buffer st;
      trace := trace st ++ [Accept; accepted_line; EnterClient; error_line e; closing_line] |}).
Proof.
  intros Ha Hf He. run_h. rewrite Ha. cbn [trace].
  rewrite <- !app_assoc. cbn [app]. unfold accepted_line in Hf. rewrite Hf, He. cbn.
  rewrite <- !app_assoc. reflexivity.
Qed.

(** The handler once the tasks exist: all that follows comes from the
    answer of the wait. *)
Lemma handler_after_setup L st :
  io_fault E (trace st ++ [Accept]) = None ->
  io_fault E (trace st ++ [Accept; accepted_line; EnterClient]) = None ->
  io_fault E (trace st ++ [Accept; accepted_line; EnterClient; Sts]) = None ->
  websocket_endpoint E L st =
  except_finally (after_wait E L (during_wait L (after_setup st))).
Proof.
  intros Ha Hc Hs. unfold after_setup, accepted_line in *.
  unfold websocket_endpoint, try_block, async_with,
    call, logger_info, set_text_buffer, emit, bind.
  cbn [fst snd shared_state text_buffer trace].
  rewrite Ha. cbn [trace shared_state text_buffer].
  rewrite <- !app_assoc. cbn [app]. rewrite Hc. cbn [trace shared_state text_buffer].
  rewrite <- !app_assoc. cbn [app]. rewrite Hs. cbn [trace shared_state text_buffer].
  reflexivity.
Qed.

(** The handler woken by the end of a task: it cancels what is pending,
    leaves the client's scope, and logs an error only if leaving the scope
    raised. *)
Lemma handler_after_wake L st t st' :
  io_fault E (trace st ++ [Accept]) = None ->
  io_fault E (trace st ++ [Accept; accepted_line; EnterClient]) = None ->
  io_fault E (trace st ++ [Accept; accepted_line; EnterClient; Sts]) = None ->
  during_wait L (after_setup st) = WaitReturns t st' ->
  done (phonic_task t) || done (twilio_task t) = true ->
  websocket_endpoint E L st =
  let tr := (trace st' ++ cancels t ++ [ExitClient])%list in
  match io_fault E tr with
  | None =>
      (Returned,
       {| shared_state := shared_state st'; text_buffer := text_buffer st';
          trace := tr ++ [closing_line] |})
  | Some e =>
      if is_Exception e then
        (Returned,
         {| shared_state := shared_state st'; text_buffer := text_buffer st';
            trace := tr ++ [error_line e; closing_line] |})
      else
        (Raised e,
         {| shared_state := shared_state st'; text_buffer := text_buffer st';
            trace := tr ++ [closing_line] |})
  end.
Proof.
  intros Ha Hc Hs Hw Hdone.
  rewrite (handler_after_setup L st Ha Hc Hs), Hw.
  unfold after_wait. rewrite Hdone. clear Ha Hc Hs Hw Hdone.
  cbv zeta. unfold cancels. run_h.
  destruct st' as [sh tb tr].
  destruct (done (phonic_task t)), (done (twilio_task t));
    cbn [orb fst snd trace shared_state text_buffer app];
    rewrite <- ?app_assoc; cbn [app];
    repeat (destruct_match;
            cbn [fst snd trace shared_state text_buffer app];
            rewrite <- ?app_assoc; cbn [app]);
    try reflexivity; try congruence.
Qed.

(** No [Exception] gets out of the handler. *)
Lemma handler_never_raises L st :
  faults_are_exceptions E ->
  wait_faults_are_exceptions L ->
  forall e, fst (websocket_endpoint E L st) <> Raised e.
Proof.
  intros H HL e. run_h.
  repeat (destruct_match; cbn [fst snd shared_state text_buffer trace] in *;
          try discriminate;
          split_pairs;
          try match goal with
              | Hf : io_fault E _ = Some ?x, Hx : is_Exception ?x = false |- _ =>
                  rewrite (H _ _ Hf) in Hx; discriminate
              end;
          try match goal with
              | Hw : during_wait L _ = WaitRaises ?x _, Hx : is_Exception ?x = false |- _ =>
                  rewrite (HL _ _ _ Hw) in Hx; discriminate
              end).
Qed.

(** When the handler returns, the closing line is the last thing it did. *)
Lemma handler_closing_line L st :
  fst (websocket_endpoint E L st) = Returned ->
  exists t, trace (snd (websocket_endpoint E L st)) = (t ++ [closing_line])%list.
Proof.
  unfold websocket_endpoint, except_finally.
  destruct (try_block E L st) as [[[|]|e] st1]; cbn.
  - intros _. eexists. reflexivity.
  - discriminate.
  - destruct (is_Exception e); cbn.
    + intros _. eexists. rewrite <- app_assoc. cbn [app].
      change [Log ERROR [Lit "WebSocket error: "; ArgExn e]; Log INFO [Lit "WebSocket connection closed"]]
        with ([error_line e] ++ [closing_line])%list.
      rewrite app_assoc. reflexivity.
    + discriminate.
Qed.

(** C8, as amended.  As long as what is raised by the peers' calls and at
    the handler's wait are [Exception]s: nothing is raised out of the
    handler; when it returns, its last act was the closing log line; a
    failure of [accept] or of opening the client is caught and logged as
    [WebSocket error]; and once the tasks exist, whenever the wait comes
    back (a task is done, normally or by an exception, which stays in the
    task), the handler cancels the tasks still pending, possibly none,
    leaves the client's scope once, and returns, logging an error only if
    leaving the scope itself raised. *)
Theorem handler_contains_exceptions (L : event_loop) (st : state) :
  faults_are_exceptions E ->
  wait_faults_are_exceptions L ->
  (forall e, fst (websocket_endpoint E L st) <> Raised e)
  /\ (fst (websocket_endpoint E L st) = Returned ->
      exists t, trace (snd (websocket_endpoint E L st)) = (t ++ [closing_line])%list)
  /\ (forall e,
      io_fault E (trace st ++ [Accept]) = Some e ->
      fst (websocket_endpoint E L st) = Returned
      /\ trace (snd (websocket_endpoint E L st)) =
           (trace st ++ [Accept; error_line e; closing_line])%list)
  /\ (forall e,
      io_fault E (trace st ++ [Accept]) = None ->
      io_fault E (trace st ++ [Accept; accepted_line; EnterClient]) = Some e ->
      fst (websocket_endpoint E L st) = Returned
      /\ trace (snd (websocket_endpoint E L st)) =
           (trace st ++ [Accept; accepted_line; EnterClient; error_line e; closing_line])%list)
  /\ (forall t st',
      io_fault E (trace st ++ [Accept]) = None ->
      io_fault E (trace st ++ [Accept; accepted_line; EnterClient]) = None ->
      io_fault E (trace st ++ [Accept; accepted_line; EnterClient; Sts]) = None ->
      during_wait L (after_setup st) = WaitReturns t st' ->
      done (phonic_task t) || done (twilio_task t) = true ->
      fst (websocket_endpoint E L st) = Returned
      /\ trace (snd (websocket_endpoint E L st)) =
           (trace st' ++ cancels t ++ [ExitClient]
            ++ match io_fault E (trace st' ++ cancels t ++ [ExitClient]) with
               | Some e => [error_line e]
               | None => []
               end
            ++ [closing_line])%list).
Proof.
  intros H HL. split; [| split; [| split; [| split]]].
  - apply handler_never_raises; assumption.
  - apply handler_closing_line.
  - intros e Hf. rewrite (handler_accept_fails L st Hf (H _ _ Hf)). auto.
  - intros e Ha Hf. rewrite (handler_enter_fails L st Ha Hf (H _ _ Hf)). auto.
  - intros t st' Ha Hc Hs Hw Hdone.
    rewrite (handler_after_wake L st Ha Hc Hs Hw Hdone). cbv zeta.
    destruct (io_fault E (trace st' ++ cancels t ++ [ExitClient])) as [e|] eqn:Hf.
    + rewrite (H _ _ Hf). cbn [fst snd trace].
      rewrite <- !app_assoc. auto.
    + cbn [fst snd trace]. rewrite <- !app_assoc. auto.
Qed.

(** What [cancels] lists: the tasks that are not done. *)
Lemma cancels_pending (t : tasks) (p : task) :
  In (Cancel p) (cancels t) <-> done (status_of p t) = false.
Proof.
  unfold cancels.
  destruct p, (done (phonic_task t)) eqn:Hp, (done (twilio_task t)) eqn:Ht;
    cbn [status_of app In];
    rewrite ?Hp, ?Ht; split; intros H; try discriminate; auto;
    repeat match goal with
           | H : _ \/ _ |- _ => destruct H
           | H : False |- _ => destruct H
           | H : Cancel _ = Cancel _ |- _ => discriminate H
           end.
Qed.

(** C9, as amended.  When the wait comes back because a task is done, the
    handler requests the cancellation of exactly the tasks that are still
    pending at that moment, none if the other task is done as well and
    never both; the next thing it does, with no [await] on a cancelled
    task in between, is to leave the client's scope, once; after that it
    only writes log records, the closing line last; none of this is a
    call on the telephony socket; and it ends. *)
Theorem pending_tasks_are_cancelled_and_the_client_left_once
    (L : event_loop) (st : state) (t : tasks) (st' : state) :
  io_fault E (trace st ++ [Accept]) = None ->
  io_fault E (trace st ++ [Accept; accepted_line; EnterClient]) = None ->
  io_fault E (trace st ++ [Accept; accepted_line; EnterClient; Sts]) = None ->
  during_wait L (after_setup st) = WaitReturns t st' ->
  done (phonic_task t) || done (twilio_task t) = true ->
  done (fst (websocket_endpoint E L st)) = true
  /\ exists logs,
       trace (snd (websocket_endpoint E L st))
       = (trace st' ++ cancels t ++ ExitClient :: logs ++ [closing_line])%list
       /\ (forall p, In (Cancel p) (cancels t) <-> done (status_of p t) = false)
       /\ length (cancels t) <= 1
       /\ forallb is_log logs = true
       /\ count_exits (cancels t ++ ExitClient :: logs ++ [closing_line]) = 1
       /\ filter on_telephony_socket (cancels t ++ ExitClient :: logs ++ [closing_line])
          = [].
Proof.
  intros Ha Hc Hs Hw Hdone.
  rewrite (handler_after_wake L st Ha Hc Hs Hw Hdone). cbv zeta.
  assert (Hone : length (cancels t) <= 1
                 /\ count_exits (cancels t) = 0
                 /\ filter on_telephony_socket (cancels t) = []).
  { unfold cancels. destruct (done (phonic_task t)), (done (twilio_task t));
      try discriminate Hdone; cbn; auto. }
  destruct Hone as (Hone & Hnone & Hsock).
  destruct (io_fault E (trace st' ++ cancels t ++ [ExitClient])) as [e|];
    [destruct (is_Exception e) |]; cbn [fst snd trace done].
  - split; [reflexivity |]. exists [error_line e].
    split; [rewrite <- !app_assoc; reflexivity |].
    split; [apply cancels_pending |]. split; [exact Hone |].
    split; [reflexivity |].
    split; [rewrite count_exits_app, Hnone; reflexivity |].
    rewrite filter_app, Hsock. reflexivity.
  - split; [reflexivity |]. exists [].
    split; [rewrite <- !app_assoc; reflexivity |].
    split; [apply cancels_pending |]. split; [exact Hone |].
    split; [reflexivity |].
    split; [rewrite count_exits_app, Hnone; reflexivity |].
    rewrite filter_app, Hsock. reflexivity.
  - split; [reflexivity |]. exists [].
    split; [rewrite <- !app_assoc; reflexivity |].
    split; [apply cancels_pending |]. split; [exact Hone |].
    split; [reflexivity |].
    split; [rewrite count_exits_app, Hnone; reflexivity |].
    rewrite filter_app, Hsock. reflexivity.
Qed.

End HandlerFacts.

(* ================================================================= *)
(** ** The theorems at work *)

(** The first inbound frame carries an empty [streamSid]: the dict takes
    it, still reads as unset, and the next frame writes over it, so the
    identifier recorded in the end is not the one of the first frame. *)
Lemma empty_first_streamSid_is_overwritten :
  json_loads calm empty_sid_text = Ok (media_frame (VStr "") "inbound" silence)
  /\ is_inbound_media (media_frame (VStr "") "inbound" silence) = true
  /\ getitem (media_frame (VStr "") "inbound" silence) "streamSid" = Ok (VStr "")
  /\ stream_id fresh = Some VNone
  /\ stream_id (snd (process_twilio_messages calm [RecvText empty_sid_text] fresh))
     = Some (VStr "")
  /\ stream_id (snd (process_twilio_messages calm
                       [RecvText empty_sid_text; RecvText first_text] fresh))
     = Some (VStr "MZ18ad3ab5")
  /\ stream_id (snd (process_twilio_messages calm
                       [RecvText empty_sid_text; RecvText first_text] fresh))
     <> Some (VStr "").
Proof.
  repeat split; try reflexivity.
  vm_compute. discriminate.
Qed.

Lemma stream_id_first_writer_wins_witness :
  json_loads calm first_text = Ok (media_frame (VStr "MZ18ad3ab5") "inbound" silence)
  /\ is_inbound_media (media_frame (VStr "MZ18ad3ab5") "inbound" silence) = true
  /\ getitem (media_frame (VStr "MZ18ad3ab5") "inbound" silence) "streamSid"
     = Ok (VStr "MZ18ad3ab5")
  /\ truthy (VStr "MZ18ad3ab5") = true
  /\ stream_id fresh = Some VNone
  /\ (stream_id (snd (process_twilio_messages calm
                        (RecvText first_text :: [RecvText second_text]) fresh))
      = Some (VStr "MZ18ad3ab5")
      /\ forall sched t st',
           stream_id st' = Some (VStr "MZ18ad3ab5") ->
           stream_id (snd (run_tasks calm sched t st')) = Some (VStr "MZ18ad3ab5")).
Proof.
  split; [reflexivity |]. split; [reflexivity |]. split; [reflexivity |].
  split; [reflexivity |]. split; [reflexivity |].
  apply (@stream_id_first_writer_wins calm first_text
           (media_frame (VStr "MZ18ad3ab5") "inbound" silence) (VStr "MZ18ad3ab5")
           [RecvText second_text] fresh);
    reflexivity.
Defined.

Lemma audio_chunk_dropped_while_unset_witness :
  has_type echo_chunk "audio_chunk" = true
  /\ stream_id fresh = Some VNone
  /\ (sent_json (trace (snd (phonic_body calm (VDict echo_chunk) fresh)))
      = sent_json (trace fresh)
      /\ shared_state (snd (phonic_body calm (VDict echo_chunk) fresh))
         = shared_state fresh
      /\ forall audio audio' : value,
           phonic_body calm (VDict (dict_set "audio" audio echo_chunk)) fresh =
           phonic_body calm (VDict (dict_set "audio" audio' echo_chunk)) fresh).
Proof.
  split; [reflexivity |]. split; [reflexivity |].
  apply (@audio_chunk_dropped_while_unset calm echo_chunk fresh); reflexivity.
Defined.

Lemma audio_round_trip_witness :
  Base64.b64decode (VStr silence) = Ok [xff; xff; xff; xff]
  /\ Base64.b64encode [xff; xff; xff; xff] = silence
  /\ (sent_audio (trace (snd (twilio_body calm
                                (media_frame (VStr "MZ18ad3ab5") "inbound" silence) fresh)))
      = (sent_audio (trace fresh) ++ [map Byte.to_N [xff; xff; xff; xff]])%list
      /\ sent_json (trace (snd (phonic_body calm (VDict echo_chunk)
                                  (with_stream_id (VStr "MZ18ad3ab5")))))
         = (sent_json (trace (with_stream_id (VStr "MZ18ad3ab5")))
            ++ [media_envelope (VStr "MZ18ad3ab5")
                  (VStr (Base64.b64encode [xff; xff; xff; xff]))])%list
      /\ Base64.b64decode (VStr (Base64.b64encode [xff; xff; xff; xff]))
         = Ok [xff; xff; xff; xff]).
Proof.
  split; [reflexivity |]. split; [reflexivity |].
  apply (@audio_round_trip calm
           (media_frame (VStr "MZ18ad3ab5") "inbound" silence)
           (VDict [("track", VStr "inbound"); ("payload", VStr silence)])
           (VStr silence) VNone [xff; xff; xff; xff] fresh
           echo_chunk (VStr "MZ18ad3ab5") (with_stream_id (VStr "MZ18ad3ab5"))).
  - reflexivity.
  - reflexivity.
  - reflexivity.
  - reflexivity.
  - reflexivity.
  - right. exists (VStr "MZ18ad3ab5"). reflexivity.
  - reflexivity.
  - reflexivity.
  - right. exists "Hi". reflexivity.
  - reflexivity.
  - reflexivity.
Defined.

Lemma transcript_flushed_on_punctuation_witness :
  (forall t, io_fault calm t = None)
  /\ stream_id fresh = Some VNone
  /\ (fst (process_phonic_messages calm
             [Yield (audio_chunk (VStr silence) "Hello");
              Yield (audio_chunk (VStr silence) " there");
              Yield (audio_chunk (VStr silence) ".")] fresh) = Suspended
      /\ flushes (trace (snd (process_phonic_messages calm
             [Yield (audio_chunk (VStr silence) "Hello");
              Yield (audio_chunk (VStr silence) " there");
              Yield (audio_chunk (VStr silence) ".")] fresh)))
         = (flushes (trace fresh) ++ ["Hello there."])%list
      /\ text_buffer (snd (process_phonic_messages calm
             [Yield (audio_chunk (VStr silence) "Hello");
              Yield (audio_chunk (VStr silence) " there");
              Yield (audio_chunk (VStr silence) ".")] fresh)) = "").
Proof.
  split; [reflexivity |]. split; [reflexivity |].
  apply (proj1 (@transcript_flushed_on_punctuation calm)
           (VStr silence) (VStr silence) (VStr silence) VNone fresh);
    reflexivity.
Defined.

Lemma audio_finished_flushes_the_rest_witness :
  has_type [("type", VStr "audio_finished")] "audio_finished" = true
  /\ phonic_body calm audio_finished
       {| shared_state := [(sid_key, VNone)]; text_buffer := "Wait for it"; trace := [] |}
     = (Ok tt,
        {| shared_state := [(sid_key, VNone)];
           text_buffer := "";
           trace := [Log INFO [Lit "Assistant: "; Arg (VStr "Wait for it")]] |}).
Proof.
  split; [reflexivity |].
  apply (proj2 (@audio_finished_flushes_the_rest calm)
           [("type", VStr "audio_finished")]
           {| shared_state := [(sid_key, VNone)];
              text_buffer := "Wait for it"; trace := [] |}).
  reflexivity.
Defined.

Lemma interrupted_response_sends_one_clear_witness :
  has_type [("type", VStr "interrupted_response")] "interrupted_response" = true
  /\ stream_id (with_stream_id (VStr "MZ18ad3ab5")) = Some (VStr "MZ18ad3ab5")
  /\ truthy (VStr "MZ18ad3ab5") = true
  /\ (sent_json (trace (snd (phonic_body calm interrupted_response
                               (with_stream_id (VStr "MZ18ad3ab5")))))
      = (sent_json (trace (with_stream_id (VStr "MZ18ad3ab5")))
         ++ [clear_envelope (VStr "MZ18ad3ab5")])%list
      /\ text_buffer (snd (phonic_body calm interrupted_response
                             (with_stream_id (VStr "MZ18ad3ab5"))))
         = text_buffer (with_stream_id (VStr "MZ18ad3ab5"))
      /\ shared_state (snd (phonic_body calm interrupted_response
                              (with_stream_id (VStr "MZ18ad3ab5"))))
         = shared_state (with_stream_id (VStr "MZ18ad3ab5"))).
Proof.
  split; [reflexivity |]. split; [reflexivity |]. split; [reflexivity |].
  apply (@interrupted_response_sends_one_clear calm
           [("type", VStr "interrupted_response")]
           (with_stream_id (VStr "MZ18ad3ab5")) (VStr "MZ18ad3ab5"));
    reflexivity.
Defined.


(** The speech-service stream breaks: its task ends with the exception,
    the handler cancels the other task, leaves the client and returns,
    and no error record of the handler mentions what happened. *)
Lemma failed_pump_is_not_logged_by_the_handler :
  faults_are_exceptions calm
  /\ is_Exception connection_lost = true
  /\ run_tasks calm broken_stream both_suspended (after_setup idle)
     = ({| phonic_task := Raised connection_lost; twilio_task := Suspended |},
        after_setup idle)
  /\ websocket_endpoint calm (scheduled calm broken_stream) idle
     = (Returned,
        {| shared_state := [(sid_key, VNone)];
           text_buffer := "";
           trace := [Accept; accepted_line; EnterClient; Sts;
                     Cancel TwilioTask; ExitClient; closing_line] |})
  /\ handler_errors (trace (snd (websocket_endpoint calm (scheduled calm broken_stream) idle)))
     = [].
Proof.
  split; [intros t e H; discriminate H |].
  repeat split.
Qed.

Lemma handler_contains_exceptions_witness :
  faults_are_exceptions refusing
  /\ wait_faults_are_exceptions (scheduled refusing broken_stream)
  /\ io_fault refusing (trace idle ++ [Accept])
     = Some (OtherException "RuntimeError" "WebSocket is not connected")
  /\ (fst (websocket_endpoint refusing (scheduled refusing broken_stream) idle) = Returned
      /\ trace (snd (websocket_endpoint refusing (scheduled refusing broken_stream) idle))
         = (trace idle
            ++ [Accept;
                error_line (OtherException "RuntimeError" "WebSocket is not connected");
                closing_line])%list).
Proof.
  assert (H : faults_are_exceptions refusing).
  { intros t e Hf. cbn in Hf.
    destruct (last t closing_line); try discriminate Hf.
    injection Hf as <-. reflexivity. }
  assert (HL : wait_faults_are_exceptions (scheduled refusing broken_stream)).
  { intros st e st' Hw. cbn in Hw. discriminate Hw. }
  split; [exact H |]. split; [exact HL |]. split; [reflexivity |].
  apply (proj1 (proj2 (proj2 (@handler_contains_exceptions refusing
                                (scheduled refusing broken_stream) idle H HL)))).
  reflexivity.
Defined.

(** Both peers go away at once: the stream of the speech service breaks
    and the receive on the telephony socket raises before the handler is
    woken.  The first task to end is the speech-service one; the other
    has ended by itself, [pending] is empty, and the handler cancels
    nothing.  What it does is leave the client's scope and write the
    closing line: it makes no call on the telephony socket. *)
Lemma both_pumps_done_and_nothing_is_cancelled :
  run_tasks calm both_gone both_suspended (after_setup idle)
  = ({| phonic_task := Raised connection_lost; twilio_task := Returned |},
     logged (receive_error_record hung_up) (after_setup idle))
  /\ websocket_endpoint calm (scheduled calm both_gone) idle
     = (Returned,
        {| shared_state := [(sid_key, VNone)];
           text_buffer := "";
           trace := [Accept; accepted_line; EnterClient; Sts;
                     receive_error_record hung_up;
                     ExitClient; closing_line] |})
  /\ count_cancels (trace (snd (websocket_endpoint calm (scheduled calm both_gone) idle))) = 0
  /\ ~ In (Cancel TwilioTask)
          (trace (snd (websocket_endpoint calm (scheduled calm both_gone) idle)))
  /\ filter on_telephony_socket
        (trace (snd (websocket_endpoint calm (scheduled calm both_gone) idle)))
     = [Accept].
Proof.
  split; [reflexivity |]. split; [reflexivity |]. split; [reflexivity |].
  split; [| reflexivity].
  cbn. intros H.
  repeat (destruct H as [H | H]; [discriminate H |]). exact H.
Qed.

Lemma pending_tasks_are_cancelled_and_the_client_left_once_witness :
  io_fault calm (trace idle ++ [Accept]) = None
  /\ io_fault calm (trace idle ++ [Accept; accepted_line; EnterClient]) = None
  /\ io_fault calm (trace idle ++ [Accept; accepted_line; EnterClient; Sts]) = None
  /\ during_wait (scheduled calm broken_stream) (after_setup idle)
     = WaitReturns {| phonic_task := Raised connection_lost; twilio_task := Suspended |}
         (after_setup idle)
  /\ (done (fst (websocket_endpoint calm (scheduled calm broken_stream) idle)) = true
      /\ exists logs,
           trace (snd (websocket_endpoint calm (scheduled calm broken_stream) idle))
           = (trace (after_setup idle)
              ++ cancels {| phonic_task := Raised connection_lost; twilio_task := Suspended |}
              ++ ExitClient :: logs ++ [closing_line])%list
           /\ (forall p,
                 In (Cancel p)
                    (cancels {| phonic_task := Raised connection_lost;
                                twilio_task := Suspended |})
                 <-> done (status_of p {| phonic_task := Raised connection_lost;
                                          twilio_task := Suspended |}) = false)
           /\ length (cancels {| phonic_task := Raised connection_lost;
                                 twilio_task := Suspended |}) <= 1
           /\ forallb is_log logs = true
           /\ count_exits
                (cancels {| phonic_task := Raised connection_lost; twilio_task := Suspended |}
                 ++ ExitClient :: logs ++ [closing_line]) = 1
           /\ filter on_telephony_socket
                (cancels {| phonic_task := Raised connection_lost; twilio_task := Suspended |}
                 ++ ExitClient :: logs ++ [closing_line]) = []).
Proof.
  split; [reflexivity |]. split; [reflexivity |]. split; [reflexivity |].
  split; [reflexivity |].
  apply (@pending_tasks_are_cancelled_and_the_client_left_once calm
           (scheduled calm broken_stream) idle
           {| phonic_task := Raised connection_lost; twilio_task := Suspended |}
           (after_setup idle));
    reflexivity.
Defined.

(* ================================================================= *)
(** ** More about the speech-service pump *)

Lemma append_nil_r (s : string) : s ++ "" = s.
Proof. induction s as [|c s IH]; cbn; [reflexivity | now rewrite IH]. Qed.

Lemma append_assoc (a b c : string) : (a ++ b) ++ c = a ++ (b ++ c).
Proof. induction a as [|x a IH]; cbn; [reflexivity | now rewrite IH]. Qed.

Lemma join_app (l m : list string) : join (l ++ m) = join l ++ join m.
Proof.
  unfold join. induction l as [|x l IH]; cbn [app fold_right]; [reflexivity |].
  rewrite IH, append_assoc. reflexivity.
Qed.

Section PhonicRuns.

Variable E : env.

(** What one message can add to the outbound traffic. *)
Lemma phonic_body_envelopes message st :
  exists new,
    sent_json (trace (snd (phonic_body E message st))) = (sent_json (trace st) ++ new)%list
    /\ Forall (carries (stream_id st)) new.
Proof.
  unfold stream_id. run_m. unfold get, getitem.
  auto_m; rewrite ?sent_json_app; cbn; rewrite ?app_nil_r;
    first [ exists []; split; [symmetry; apply app_nil_r | constructor ]
          | eexists; split; [reflexivity |];
            repeat constructor; eexists; repeat split; eauto;
            first [ left; reflexivity | right; eexists; reflexivity ] ].
Qed.

(** A property of pairs of states that holds across one message holds
    across the whole loop. *)
Lemma phonic_loop_rel (R : state -> state -> Prop) :
  (forall st, R st st) ->
  (forall a b c, R a b -> R b c -> R a c) ->
  (forall message st, R st (snd (phonic_body E message st))) ->
  forall items st, R st (snd (phonic_loop E items st)).
Proof.
  intros Hrefl Htrans Hbody.
  induction items as [|item rest IH]; intros st; [apply Hrefl |].
  assert (Hit : R st (snd (phonic_iteration E item st))).
  { destruct item as [message| |e]; try apply Hrefl.
    pose proof (Hbody message st) as H.
    unfold phonic_iteration, bind, ret.
    destruct (phonic_body E message st) as [[[]|e] st']; exact H. }
  cbn [phonic_loop].
  destruct (phonic_iteration E item st) as [[[|]|e] st']; cbn [snd] in *;
    [apply (Htrans _ st'); [exact Hit | apply IH] | exact Hit | exact Hit].
Qed.

Lemma phonic_body_sent_audio message st :
  sent_audio (trace (snd (phonic_body E message st))) = sent_audio (trace st).
Proof.
  run_m. unfold get, getitem.
  auto_m; rewrite ?sent_audio_app; cbn; rewrite ?app_nil_r; reflexivity.
Qed.

Lemma phonic_loop_envelopes items st :
  shared_state (snd (phonic_loop E items st)) = shared_state st
  /\ exists new,
       sent_json (trace (snd (phonic_loop E items st))) = (sent_json (trace st) ++ new)%list
       /\ Forall (carries (stream_id st)) new.
Proof.
  apply (phonic_loop_rel
           (fun a b =>
              shared_state b = shared_state a
              /\ exists new,
                   sent_json (trace b) = (sent_json (trace a) ++ new)%list
                   /\ Forall (carries (stream_id a)) new)).
  - intros a. split; [reflexivity |]. exists []. split; [symmetry; apply app_nil_r | constructor].
  - intros a b c [Hab [n1 [H1 F1]]] [Hbc [n2 [H2 F2]]]. split; [congruence |].
    exists (n1 ++ n2)%list. split.
    + rewrite H2, H1, app_assoc. reflexivity.
    + apply Forall_app. split; [exact F1 |].
      unfold stream_id in *. rewrite Hab in F2. exact F2.
  - intros message a. split; [apply phonic_body_shared_state |].
    apply phonic_body_envelopes.
Qed.

(** X1.  Whatever the stream delivers, every envelope the speech-service
    pump hands to [websocket.send_json] is a media or a clear envelope whose
    [streamSid] is the truthy identifier held by the shared dict when the
    pump was started on these items; the pump sends nothing of another
    shape. *)
Theorem outbound_envelopes_carry_the_recorded_stream_id
    (items : list stream_item) (st : state) :
  exists new,
    sent_json (trace (snd (process_phonic_messages E items st)))
    = (sent_json (trace st) ++ new)%list
    /\ Forall (carries (stream_id st)) new.
Proof.
  unfold process_phonic_messages. cbn [set_text_buffer].
  apply (phonic_loop_envelopes items
           {| shared_state := shared_state st; text_buffer := ""; trace := trace st |}).
Qed.

(** X2.  While the stream identifier is absent or falsy, a run of the
    speech-service pump over any items (audio, interruptions, anything)
    hands nothing at all to [websocket.send_json]. *)
Theorem nothing_sent_while_stream_id_falsy (items : list stream_item) (st : state) :
  (forall sid, stream_id st = Some sid -> truthy sid = false) ->
  sent_json (trace (snd (process_phonic_messages E items st))) = sent_json (trace st).
Proof.
  intros Hfalsy. unfold process_phonic_messages. cbn [set_text_buffer].
  destruct (phonic_loop_envelopes items
              {| shared_state := shared_state st; text_buffer := ""; trace := trace st |})
    as [_ [new [Hnew Hall]]].
  rewrite Hnew. destruct new as [|envelope new]; [apply app_nil_r |].
  inversion Hall as [|x l (sid & Hsid & Htrue & _) _]. subst.
  rewrite (Hfalsy sid Hsid) in Htrue. discriminate.
Qed.

(** X3.  The speech-service pump never writes the shared dict and never
    calls [client.send_audio], over any run. *)
Theorem phonic_pump_leaves_the_inbound_side_alone
    (items : list stream_item) (st : state) :
  shared_state (snd (process_phonic_messages E items st)) = shared_state st
  /\ sent_audio (trace (snd (process_phonic_messages E items st))) = sent_audio (trace st).
Proof.
  unfold process_phonic_messages. cbn [set_text_buffer].
  split.
  - apply (phonic_loop_envelopes items
             {| shared_state := shared_state st; text_buffer := ""; trace := trace st |}).
  - apply (phonic_loop_rel (fun a b => sent_audio (trace b) = sent_audio (trace a))
             (fun a => eq_refl)
             (fun a b c Hab Hbc => eq_trans Hbc Hab)
             phonic_body_sent_audio items
             {| shared_state := shared_state st; text_buffer := ""; trace := trace st |}).
Qed.

Lemma any_punc_nonempty (s : string) : any_punc s = true -> s <> "".
Proof. intros H ->. discriminate H. Qed.

(** One turn that ends well: what it flushes and what it leaves in the
    buffer add up to the old buffer and the fragment of the item; and
    nothing empty is flushed. *)
Lemma phonic_iteration_transcript item st :
  fst (phonic_iteration E item st) = Ok Continue ->
  exists new,
    flushes (trace (snd (phonic_iteration E item st))) = (flushes (trace st) ++ new)%list
    /\ join new ++ text_buffer (snd (phonic_iteration E item st))
       = text_buffer st ++ fragment item
    /\ Forall (fun s => s <> "") new.
Proof.
  destruct item as [message| |e]; [| discriminate | discriminate].
  unfold fragment, has_type. run_m. unfold get, getitem.
  auto_m; intros H; try discriminate H;
    rewrite ?flushes_app; cbn [flushes flat_map app String.eqb Ascii.eqb Bool.eqb];
    rewrite ?app_nil_r.
  all: try (match goal with
            | |- context [match ?v with VNone => _ | _ => _ end] => destruct v
            end;
            cbn [app String.eqb Ascii.eqb Bool.eqb]; rewrite ?app_nil_r).
  all: match goal with
       | |- exists new, ?A = (?A ++ new)%list /\ _ =>
           exists []; split; [symmetry; apply app_nil_r |]
       | |- exists new, (?A ++ ?l)%list = (?A ++ new)%list /\ _ =>
           exists l; split; [reflexivity |]
       end.
  all: try match goal with
           | Hs : negb (?s =? "") = false |- _ =>
               apply negb_false_iff in Hs; apply String.eqb_eq in Hs; subst s
           end.
  all: split.
  all: try (cbn [join fold_right append]; rewrite ?append_nil_r; reflexivity).
  all: try (apply Forall_nil).
  all: apply Forall_cons; [| apply Forall_nil].
  all: first [ apply any_punc_nonempty; assumption
             | apply String.eqb_neq, negb_true_iff; assumption ].
Qed.

Lemma phonic_loop_transcript items :
  forall st,
    fst (phonic_loop E items st) = Suspended ->
    exists new,
      flushes (trace (snd (phonic_loop E items st))) = (flushes (trace st) ++ new)%list
      /\ join new ++ text_buffer (snd (phonic_loop E items st))
         = text_buffer st ++ join (map fragment items)
      /\ Forall (fun s => s <> "") new.
Proof.
  induction items as [|item rest IH]; intros st Hrun.
  - exists []. cbn [phonic_loop snd map join fold_right append].
    rewrite app_nil_r, append_nil_r. repeat split. constructor.
  - cbn [phonic_loop] in *.
    pose proof (phonic_iteration_transcript item st) as Hstep.
    destruct (phonic_iteration E item st) as [[[|]|e] st1]; cbn [fst snd] in *;
      try discriminate Hrun.
    destruct (Hstep eq_refl) as (n1 & Hf1 & Hj1 & Hn1).
    destruct (IH st1 Hrun) as (n2 & Hf2 & Hj2 & Hn2).
    exists (n1 ++ n2)%list. split; [| split].
    + rewrite Hf2, Hf1, app_assoc. reflexivity.
    + rewrite join_app, append_assoc, Hj2, <- append_assoc, Hj1.
      cbn [map join fold_right]. apply append_assoc.
    + apply Forall_app. split; assumption.
Qed.

(** X4.  As long as the speech-service pump is still running, no text is
    lost and none is duplicated: the utterances it has logged, in order,
    followed by what is left in the buffer, spell exactly the text
    fragments of the [audio_chunk] messages received, in order; and no
    logged utterance is empty. *)
Theorem transcript_is_conserved (items : list stream_item) (st : state) :
  fst (process_phonic_messages E items st) = Suspended ->
  exists new,
    flushes (trace (snd (process_phonic_messages E items st)))
    = (flushes (trace st) ++ new)%list
    /\ join new ++ text_buffer (snd (process_phonic_messages E items st))
       = join (map fragment items)
    /\ Forall (fun s => s <> "") new.
Proof.
  unfold process_phonic_messages. cbn [set_text_buffer]. intros Hrun.
  apply (phonic_loop_transcript items
           {| shared_state := shared_state st; text_buffer := ""; trace := trace st |}
           Hrun).
Qed.

(** The loop on two batches of items: the second batch is reached only
    if the pump is still waiting after the first. *)
Lemma phonic_loop_app pre more :
  forall st,
    phonic_loop E (pre ++ more) st =
    match fst (phonic_loop E pre st) with
    | Suspended => phonic_loop E more (snd (phonic_loop E pre st))
    | _ => phonic_loop E pre st
    end.
Proof.
  induction pre as [|item pre IH]; intros st; [reflexivity |].
  cbn [app phonic_loop].
  destruct (phonic_iteration E item st) as [[[|]|e] st1]; cbn [fst snd after_iteration];
    [apply IH | reflexivity | reflexivity].
Qed.

(** X5.  An [audio_chunk] that cannot be used ends the pump on the spot:
    without an [audio] key it raises [KeyError], with a [text] that is
    truthy but not a string it raises [TypeError]; either way the message
    leaves no trace (its text is not appended, its audio is not
    forwarded, nothing is logged) and no later message is processed. *)
Theorem unusable_audio_chunk_ends_the_pump
    (d : dict) (pre rest : list stream_item) (st : state) :
  has_type d "audio_chunk" = true ->
  fst (process_phonic_messages E pre st) = Suspended ->
  (dict_get "audio" d = None ->
   process_phonic_messages E (pre ++ Yield (VDict d) :: rest) st =
   (Raised (KeyError "audio"), snd (process_phonic_messages E pre st)))
  /\ (forall audio text,
       dict_get "audio" d = Some audio ->
       dict_get "text" d = Some text ->
       truthy text = true ->
       (forall s, text <> VStr s) ->
       process_phonic_messages E (pre ++ Yield (VDict d) :: rest) st =
       (Raised TypeError, snd (process_phonic_messages E pre st))).
Proof.
  intros Hty Hpre. apply has_type_eq in Hty.
  unfold process_phonic_messages in *. cbn [set_text_buffer] in *.
  split.
  - intros Haudio. rewrite phonic_loop_app, Hpre. cbn [phonic_loop].
    run_m. unfold get, getitem. rewrite Hty, Haudio. reflexivity.
  - intros audio text Haudio Htext Htrue Hnot.
    rewrite phonic_loop_app, Hpre. cbn [phonic_loop].
    run_m. unfold get, getitem. rewrite Hty, Haudio, Htext. simp_m. rewrite Htrue.
    destruct text; try reflexivity. exfalso. apply (Hnot s). reflexivity.
Qed.

(** X6.  A message that is neither an [audio_chunk], nor [audio_finished],
    nor [interrupted_response] changes nothing of the session: not the
    transcript buffer, not the shared dict, not the traffic to either
    peer, and it flushes nothing; a message of no known type at all is a
    no-operation. *)
Theorem other_messages_leave_the_session_alone (d : dict) (st : state) :
  has_type d "audio_chunk" = false ->
  has_type d "audio_finished" = false ->
  has_type d "interrupted_response" = false ->
  (text_buffer (snd (phonic_body E (VDict d) st)) = text_buffer st
   /\ shared_state (snd (phonic_body E (VDict d) st)) = shared_state st
   /\ sent_json (trace (snd (phonic_body E (VDict d) st))) = sent_json (trace st)
   /\ sent_audio (trace (snd (phonic_body E (VDict d) st))) = sent_audio (trace st)
   /\ flushes (trace (snd (phonic_body E (VDict d) st))) = flushes (trace st))
  /\ (has_type d "input_text" = false -> phonic_body E (VDict d) st = (Ok tt, st)).
Proof.
  unfold has_type. intros H1 H2 H3.
  split.
  - run_m. unfold get, getitem.
    destruct (dict_get "type" d) as [ty|] eqn:Hty; simp_m.
    + rewrite H1, H2, H3.
      destruct (eq_str ty "input_text"); [| repeat split; reflexivity].
      destruct (dict_get "text" d) as [text|]; simp_m; [| repeat split; reflexivity].
      rewrite sent_json_app, sent_audio_app, flushes_app. cbn [sent_json sent_audio flat_map app].
      rewrite !app_nil_r. repeat split; try reflexivity.
      destruct text; cbn; rewrite ?app_nil_r; reflexivity.
    + repeat split; reflexivity.
  - intros H4. run_m. unfold get, getitem.
    destruct (dict_get "type" d) as [ty|] eqn:Hty; simp_m; [| reflexivity].
    rewrite H1, H2, H3, H4. reflexivity.
Qed.

End PhonicRuns.

(* ================================================================= *)
(** ** More about the telephony pump *)

Section TwilioRuns.

Variable E : env.

(** A property of pairs of states that holds across one turn of the
    receive loop holds across the whole loop. *)
Lemma twilio_loop_rel (R : state -> state -> Prop) :
  (forall st, R st st) ->
  (forall a b c, R a b -> R b c -> R a c) ->
  (forall ev st, R st (snd (twilio_iteration E ev st))) ->
  forall evs st, R st (snd (process_twilio_messages E evs st)).
Proof.
  intros Hrefl Htrans Hit.
  induction evs as [|ev rest IH]; intros st; [apply Hrefl |].
  pose proof (Hit ev st) as H.
  cbn [process_twilio_messages].
  destruct (twilio_iteration E ev st) as [[[|]|e] st']; cbn [snd] in *;
    [apply (Htrans _ st'); [exact H | apply IH] | exact H | exact H].
Qed.

Lemma process_twilio_messages_app pre more :
  forall st,
    process_twilio_messages E (pre ++ more) st =
    match fst (process_twilio_messages E pre st) with
    | Suspended => process_twilio_messages E more (snd (process_twilio_messages E pre st))
    | _ => process_twilio_messages E pre st
    end.
Proof.
  induction pre as [|ev pre IH]; intros st; [reflexivity |].
  cbn [app process_twilio_messages].
  destruct (twilio_iteration E ev st) as [[[|]|e] st1]; cbn [fst snd after_iteration];
    [apply IH | reflexivity | reflexivity].
Qed.

Lemma twilio_iteration_sent_json ev st :
  sent_json (trace (snd (twilio_iteration E ev st))) = sent_json (trace st).
Proof.
  run_m. unfold get, getitem.
  auto_m; rewrite ?sent_json_app; cbn; rewrite ?app_nil_r; reflexivity.
Qed.

Lemma twilio_iteration_flushes ev st :
  flushes (trace (snd (twilio_iteration E ev st))) = flushes (trace st).
Proof.
  run_m. unfold get, getitem.
  auto_m; rewrite ?flushes_app; cbn; rewrite ?app_nil_r; reflexivity.
Qed.

(** X7.  The telephony pump never sends anything to the telephony peer,
    never touches the transcript buffer and never logs an utterance, over
    any run. *)
Theorem twilio_pump_leaves_the_outbound_side_alone
    (evs : list recv_event) (st : state) :
  sent_json (trace (snd (process_twilio_messages E evs st))) = sent_json (trace st)
  /\ text_buffer (snd (process_twilio_messages E evs st)) = text_buffer st
  /\ flushes (trace (snd (process_twilio_messages E evs st))) = flushes (trace st).
Proof.
  split; [| split].
  - apply (twilio_loop_rel (fun a b => sent_json (trace b) = sent_json (trace a))
             (fun a => eq_refl) (fun a b c Hab Hbc => eq_trans Hbc Hab)
             twilio_iteration_sent_json).
  - apply (twilio_loop_rel (fun a b => text_buffer b = text_buffer a)
             (fun a => eq_refl) (fun a b c Hab Hbc => eq_trans Hbc Hab)
             (twilio_iteration_text_buffer E)).
  - apply (twilio_loop_rel (fun a b => flushes (trace b) = flushes (trace a))
             (fun a => eq_refl) (fun a b c Hab Hbc => eq_trans Hbc Hab)
             twilio_iteration_flushes).
Qed.

(** One turn of the receive loop calls [client.send_audio] at most once. *)
Lemma twilio_iteration_one_send ev st :
  exists new,
    sent_audio (trace (snd (twilio_iteration E ev st))) = (sent_audio (trace st) ++ new)%list
    /\ length new <= 1.
Proof.
  run_m. unfold get, getitem.
  auto_m; rewrite ?sent_audio_app; cbn [sent_audio flat_map app]; rewrite ?app_nil_r;
    first [ exists []; split; [symmetry; apply app_nil_r | cbn; lia]
          | eexists; split; [reflexivity | cbn; lia] ].
Qed.

(** X8.  However the frames look, the telephony pump hands at most one
    array to [client.send_audio] per frame received, and takes none
    back: what was sent before stays, in place. *)
Theorem at_most_one_audio_submission_per_frame (evs : list recv_event) (st : state) :
  exists new,
    sent_audio (trace (snd (process_twilio_messages E evs st)))
    = (sent_audio (trace st) ++ new)%list
    /\ length new <= length evs.
Proof.
  revert st. induction evs as [|ev rest IH]; intros st.
  - exists []. split; [symmetry; apply app_nil_r | cbn; lia].
  - destruct (twilio_iteration_one_send ev st) as (n1 & H1 & L1).
    cbn [process_twilio_messages].
    destruct (twilio_iteration E ev st) as [[[|]|e] st1]; cbn [snd] in *.
    + destruct (IH st1) as (n2 & H2 & L2).
      exists (n1 ++ n2)%list. split.
      * rewrite H2, H1, app_assoc. reflexivity.
      * rewrite length_app. cbn [length]. lia.
    + exists n1. split; [exact H1 | cbn [length]; lia].
    + exists n1. split; [exact H1 | cbn [length]; lia].
Qed.

(** One turn either leaves the recorded identifier alone or records the
    [streamSid] of the inbound media frame it has just been given. *)
Lemma twilio_iteration_provenance ev st :
  stream_id (snd (twilio_iteration E ev st)) = stream_id st
  \/ exists sid,
       names_stream E ev sid
       /\ stream_id (snd (twilio_iteration E ev st)) = Some sid.
Proof.
  unfold names_stream, stream_id.
  destruct ev as [message|e]; cbn [twilio_iteration].
  - destruct (json_loads E message) as [data|e] eqn:Hloads.
    + unfold is_inbound_media. run_m. unfold get, getitem.
      auto_m; try (left; reflexivity).
      all: right; eexists; split;
        [ exists message; eexists; repeat split; try reflexivity; eauto
        | apply dict_get_set_same ].
      all: cbv beta iota; repeat (rew_hyp; cbv beta iota); reflexivity.
    + left. run_m. auto_m; reflexivity.
  - left. run_m. auto_m; reflexivity.
Qed.

(** X9.  The stream identifier in the shared dict always comes from an
    inbound media frame: after any run of the telephony pump it is
    either what it was before, or the [streamSid] of one of the frames
    that were received, a frame with [event == "media"] and
    [track == "inbound"]. *)
Theorem stream_id_comes_from_an_inbound_frame (evs : list recv_event) (st : state) :
  stream_id (snd (process_twilio_messages E evs st)) = stream_id st
  \/ exists ev sid,
       In ev evs
       /\ names_stream E ev sid
       /\ stream_id (snd (process_twilio_messages E evs st)) = Some sid.
Proof.
  revert st. induction evs as [|ev rest IH]; intros st; [left; reflexivity |].
  pose proof (twilio_iteration_provenance ev st) as Hstep.
  cbn [process_twilio_messages].
  destruct (twilio_iteration E ev st) as [[[|]|e] st1]; cbn [snd] in *.
  - destruct (IH st1) as [Hsame | (ev' & sid & Hin & Hname & Hsid)].
    + rewrite Hsame. destruct Hstep as [H | (sid & Hname & H)];
        [left; exact H | right; exists ev, sid; repeat split; [left; reflexivity | exact Hname | exact H]].
    + right. exists ev', sid. repeat split; [right; exact Hin | exact Hname | exact Hsid].
  - destruct Hstep as [H | (sid & Hname & H)];
      [left; exact H | right; exists ev, sid; repeat split; [left; reflexivity | exact Hname | exact H]].
  - destruct Hstep as [H | (sid & Hname & H)];
      [left; exact H | right; exists ev, sid; repeat split; [left; reflexivity | exact Hname | exact H]].
Qed.

(** X10.  A frame that is valid JSON but has no [event] to look up (an
    object without the key, or not an object at all) is not skipped the
    way malformed JSON is: the lookup raises outside the [try], nothing is
    logged, the state is untouched, and the pump ends there, later frames
    unread. *)
Theorem json_without_event_ends_the_pump
    (message : string) (data : value) (e : exn) (rest : list recv_event) (st : state) :
  json_loads E message = Ok data ->
  getitem data "event" = Raise e ->
  process_twilio_messages E (RecvText message :: rest) st = (Raised e, st)
  /\ (e = KeyError "event" \/ e = TypeError).
Proof.
  intros Hloads Hev. split.
  - cbn [process_twilio_messages twilio_iteration]. rewrite Hloads.
    run_m. rewrite Hev. reflexivity.
  - unfold getitem in Hev.
    destruct data; try (right; congruence).
    destruct (dict_get "event" d); [discriminate | left; congruence].
Qed.

(** X11.  An inbound media frame whose payload does not decode (not a
    string, not ASCII, or a base64 quad left open) ends the pump with the
    decoder's exception and forwards no audio; but the frame's
    [streamSid] has already been recorded if none was before. *)
Theorem undecodable_payload_ends_the_pump
    (message : string) (data sid media payload cur : value) (e : exn)
    (rest : list recv_event) (st : state) :
  json_loads E message = Ok data ->
  is_inbound_media data = true ->
  getitem data "streamSid" = Ok sid ->
  getitem data "media" = Ok media ->
  getitem media "payload" = Ok payload ->
  Base64.b64decode payload = Raise e ->
  stream_id st = Some cur ->
  process_twilio_messages E (RecvText message :: rest) st =
  (Raised e,
   if truthy cur then st
   else {| shared_state := dict_set sid_key sid (shared_state st);
           text_buffer := text_buffer st;
           trace := trace st |}).
Proof.
  intros Hloads Hin Hsid Hmedia Hpayload Hdec Hcur.
  destruct (is_inbound_media_inv data Hin) as (d & m & -> & Hev & Hm & Ht).
  unfold stream_id in Hcur. unfold getitem in Hsid, Hmedia, Hpayload.
  rewrite Hm in Hmedia. injection Hmedia as <-.
  destruct (dict_get "streamSid" d) as [v|] eqn:Hv; [| discriminate].
  injection Hsid as ->.
  destruct (dict_get "payload" m) as [p|] eqn:Hp; [| discriminate].
  injection Hpayload as ->.
  cbn [process_twilio_messages twilio_iteration]. rewrite Hloads.
  destruct (truthy cur) eqn:Htrue; run_m; unfold getitem, get; auto_m; reflexivity.
Qed.

(** X12.  The [streamSid] of a frame is read only while no identifier is
    recorded.  A frame without the key is forwarded like any other once
    an identifier is there; before that it raises [KeyError] and ends the
    pump, with nothing forwarded and the state untouched. *)
Theorem streamSid_is_read_only_while_unset
    (message : string) (data media payload cur : value) (bs : list byte)
    (rest : list recv_event) (st : state) :
  json_loads E message = Ok data ->
  is_inbound_media data = true ->
  getitem data "streamSid" = Raise (KeyError "streamSid") ->
  getitem data "media" = Ok media ->
  getitem media "payload" = Ok payload ->
  Base64.b64decode payload = Ok bs ->
  stream_id st = Some cur ->
  io_fault E (trace st ++ [SendAudio (map Byte.to_N bs)]) = None ->
  process_twilio_messages E (RecvText message :: rest) st =
  if truthy cur
  then process_twilio_messages E rest (logged (SendAudio (map Byte.to_N bs)) st)
  else (Raised (KeyError "streamSid"), st).
Proof.
  intros Hloads Hin Hsid Hmedia Hpayload Hdec Hcur Hq.
  destruct (is_inbound_media_inv data Hin) as (d & m & -> & Hev & Hm & Ht).
  unfold stream_id in Hcur. unfold getitem in Hsid, Hmedia, Hpayload.
  rewrite Hm in Hmedia. injection Hmedia as <-.
  destruct (dict_get "streamSid" d) as [v|] eqn:Hv; [discriminate |].
  destruct (dict_get "payload" m) as [p|] eqn:Hp; [| discriminate].
  injection Hpayload as ->.
  cbn [process_twilio_messages twilio_iteration]. rewrite Hloads.
  unfold logged.
  destruct (truthy cur) eqn:Htrue; run_m; unfold getitem, get, np_frombuffer_uint8;
    auto_m; reflexivity.
Qed.

(** X13.  Frames that are not inbound audio ([connected], [start], any
    other event, media of another track) never change the shared dict,
    never reach [client.send_audio] and never end the loop. *)
Theorem other_frames_change_nothing (data event : value) (st : state) :
  getitem data "event" = Ok event ->
  is_inbound_media data = false ->
  (eq_str event "media" = false
   \/ exists media m, get data "media" (VDict []) = Ok media /\ media = VDict m) ->
  fst (twilio_body E data st) = Ok tt
  /\ shared_state (snd (twilio_body E data st)) = shared_state st
  /\ text_buffer (snd (twilio_body E data st)) = text_buffer st
  /\ sent_audio (trace (snd (twilio_body E data st))) = sent_audio (trace st).
Proof.
  unfold is_inbound_media. intros Hev. rewrite Hev. intros Hin Hmedia.
  destruct data as [| | | | | |d]; try discriminate Hev.
  unfold getitem, get in Hev, Hin, Hmedia.
  destruct (dict_get "event" d) as [ev|] eqn:He; [| discriminate].
  injection Hev as ->.
  destruct (eq_str event "media") eqn:Hm.
  - destruct Hmedia as [Hmedia | (media & m & Hget & ->)]; [discriminate |].
    cbn [andb] in Hin.
    destruct (dict_get "media" d) as [v|] eqn:Hmd;
      injection Hget as Hget; subst;
      destruct (dict_get "track" _) as [track|] eqn:Ht;
      run_m; unfold getitem, get; auto_m;
      repeat split;
      rewrite ?sent_audio_app; cbn [sent_audio flat_map app]; rewrite ?app_nil_r;
      reflexivity.
  - run_m. unfold getitem, get.
    auto_m; repeat split;
      rewrite ?sent_audio_app; cbn [sent_audio flat_map app]; rewrite ?app_nil_r;
      reflexivity.
Qed.

(** A well-formed inbound frame, when the send succeeds: the decoded
    payload goes out, the loop goes on, and the shared dict still has its
    key. *)
Lemma inbound_frame_step message sid bs cur st :
  inbound_frame E message sid bs ->
  (forall t, io_fault E t = None) ->
  stream_id st = Some cur ->
  exists st',
    twilio_iteration E (RecvText message) st = (Ok Continue, st')
    /\ trace st' = (trace st ++ [SendAudio (map Byte.to_N bs)])%list
    /\ stream_id st' = Some (if truthy cur then cur else sid).
Proof.
  intros (data & media & payload & Hloads & Hin & Hsid & Hmedia & Hpayload & Hdec) Hq Hcur.
  destruct (is_inbound_media_inv data Hin) as (d & m & -> & Hev & Hm & Ht).
  unfold stream_id in *. unfold getitem in Hsid, Hmedia, Hpayload.
  rewrite Hm in Hmedia. injection Hmedia as <-.
  destruct (dict_get "streamSid" d) as [v|] eqn:Hv; [| discriminate].
  injection Hsid as ->.
  destruct (dict_get "payload" m) as [p|] eqn:Hp; [| discriminate].
  injection Hpayload as ->.
  cbn [twilio_iteration]. rewrite Hloads.
  destruct (truthy cur) eqn:Htrue; run_m; unfold getitem, get, np_frombuffer_uint8;
    auto_m;
    try match goal with
        | Hf : io_fault E _ = Some _ |- _ => rewrite Hq in Hf; discriminate Hf
        end;
    eexists; (split; [reflexivity |]); cbn [trace shared_state]; split;
    try reflexivity; try assumption; apply dict_get_set_same.
Qed.

(** X14.  A batch of well-formed inbound media frames, with sends that
    succeed, is forwarded whole and in arrival order: the arrays handed to
    [client.send_audio] are the decoded payloads of the frames, one per
    frame, in the order received, and the pump is left waiting for the
    next frame. *)
Theorem inbound_audio_is_forwarded_in_order
    (messages : list string) (audios : list (list byte)) (cur : value) (st : state) :
  (forall t, io_fault E t = None) ->
  Forall2 (fun message bs => exists sid, inbound_frame E message sid bs) messages audios ->
  stream_id st = Some cur ->
  fst (process_twilio_messages E (map RecvText messages) st) = Suspended
  /\ sent_audio (trace (snd (process_twilio_messages E (map RecvText messages) st)))
     = (sent_audio (trace st) ++ map (map Byte.to_N) audios)%list.
Proof.
  intros Hq Hall. revert cur st.
  induction Hall as [|message bs messages audios [sid Hframe] _ IH]; intros cur st Hcur.
  - cbn. rewrite app_nil_r. auto.
  - destruct (inbound_frame_step st Hframe Hq Hcur) as (st1 & Hstep & Htrace & Hsid).
    cbn [map process_twilio_messages]. rewrite Hstep.
    destruct (IH _ st1 Hsid) as [Hstatus Hsent].
    split; [exact Hstatus |].
    rewrite Hsent, Htrace, sent_audio_app. cbn [sent_audio flat_map app].
    rewrite <- app_assoc. reflexivity.
Qed.

End TwilioRuns.

(* ================================================================= *)
(** ** More about the connection handler *)

Lemma count_closing_app (t u : list event) :
  count_closing (t ++ u) = count_closing t + count_closing u.
Proof. unfold count_closing. rewrite filter_app, length_app. reflexivity. Qed.

Lemma count_cancels_app (t u : list event) :
  count_cancels (t ++ u) = count_cancels t + count_cancels u.
Proof. unfold count_cancels. rewrite filter_app, length_app. reflexivity. Qed.

Section PumpTurns.

Variable E : env.

(** A property of pairs of states kept by each turn of either pump is
    kept by the two tasks run together. *)
Lemma run_tasks_rel (R : state -> state -> Prop) :
  (forall st, R st st) ->
  (forall a b c, R a b -> R b c -> R a c) ->
  (forall item st, R st (snd (phonic_iteration E item st))) ->
  (forall ev st, R st (snd (twilio_iteration E ev st))) ->
  forall sched t st, R st (snd (run_tasks E sched t st)).
Proof.
  intros Hrefl Htrans Hp Ht.
  induction sched as [|[item|ev] rest IH]; intros t st; cbn [run_tasks].
  - apply Hrefl.
  - destruct (done (phonic_task t)); [apply IH |].
    pose proof (Hp item st) as H.
    destruct (phonic_iteration E item st) as [r st']; cbn [snd] in *.
    apply (Htrans _ st'); [exact H | apply IH].
  - destruct (done (twilio_task t)); [apply IH |].
    pose proof (Ht ev st) as H.
    destruct (twilio_iteration E ev st) as [r st']; cbn [snd] in *.
    apply (Htrans _ st'); [exact H | apply IH].
Qed.

(** The pumps make none of the handler's own calls and write none of its
    log records. *)
Lemma phonic_iteration_marks item st :
  count_exits (trace (snd (phonic_iteration E item st))) = count_exits (trace st)
  /\ count_closing (trace (snd (phonic_iteration E item st))) = count_closing (trace st)
  /\ count_cancels (trace (snd (phonic_iteration E item st))) = count_cancels (trace st)
  /\ handler_errors (trace (snd (phonic_iteration E item st))) = handler_errors (trace st).
Proof.
  unfold count_exits, count_closing, count_cancels.
  run_m. unfold get, getitem.
  auto_m; rewrite ?filter_app, ?handler_errors_app; cbn; rewrite ?app_nil_r; auto.
Qed.

Lemma twilio_iteration_marks ev st :
  count_exits (trace (snd (twilio_iteration E ev st))) = count_exits (trace st)
  /\ count_closing (trace (snd (twilio_iteration E ev st))) = count_closing (trace st)
  /\ count_cancels (trace (snd (twilio_iteration E ev st))) = count_cancels (trace st)
  /\ handler_errors (trace (snd (twilio_iteration E ev st))) = handler_errors (trace st).
Proof.
  unfold count_exits, count_closing, count_cancels.
  run_m. unfold get, getitem.
  auto_m; rewrite ?filter_app, ?handler_errors_app; cbn; rewrite ?app_nil_r; auto.
Qed.

Lemma phonic_iteration_envelopes item st :
  shared_state (snd (phonic_iteration E item st)) = shared_state st
  /\ exists new,
       sent_json (trace (snd (phonic_iteration E item st))) = (sent_json (trace st) ++ new)%list
       /\ Forall (carries (stream_id st)) new.
Proof.
  split; [apply phonic_iteration_shared_state |].
  destruct item as [message| |e]; cbn [phonic_iteration].
  - pose proof (phonic_body_envelopes E message st) as H.
    unfold bind, ret. destruct (phonic_body E message st) as [[[]|e] st']; exact H.
  - exists []. split; [symmetry; apply app_nil_r | constructor].
  - exists []. split; [symmetry; apply app_nil_r | constructor].
Qed.

End PumpTurns.

Section PumpSteps.

Variable E : env.

(** A property of pairs of states kept by every step the tasks can take
    is kept by any number of them. *)
Lemma pump_steps_rel (R : state -> state -> Prop) :
  (forall st, R st st) ->
  (forall a b c, R a b -> R b c -> R a c) ->
  (forall E' item st, R st (snd (phonic_iteration E' item st))) ->
  (forall E' ev st, R st (snd (twilio_iteration E' ev st))) ->
  (forall st, R st (logged (Log INFO [Lit "Response interrupted"]) st)) ->
  forall inputs st st', pump_steps E inputs st st' -> R st st'.
Proof.
  intros Hrefl Htrans Hp Ht Hl inputs st st' H.
  induction H as [st | E' item inputs st st' _ _ IH
                  | E' ev inputs st st' _ _ IH | inputs st st' _ IH].
  - apply Hrefl.
  - exact (Htrans _ _ _ (Hp E' item st) IH).
  - exact (Htrans _ _ _ (Ht E' ev st) IH).
  - exact (Htrans _ _ _ (Hl st) IH).
Qed.

Lemma pump_steps_marks inputs st st' :
  pump_steps E inputs st st' ->
  count_exits (trace st') = count_exits (trace st)
  /\ count_closing (trace st') = count_closing (trace st)
  /\ count_cancels (trace st') = count_cancels (trace st)
  /\ handler_errors (trace st') = handler_errors (trace st).
Proof.
  apply (pump_steps_rel
           (fun a b =>
              count_exits (trace b) = count_exits (trace a)
              /\ count_closing (trace b) = count_closing (trace a)
              /\ count_cancels (trace b) = count_cancels (trace a)
              /\ handler_errors (trace b) = handler_errors (trace a))).
  - auto.
  - intros a b c (H1 & H2 & H3 & H4) (H5 & H6 & H7 & H8). repeat split; congruence.
  - intros E'. apply phonic_iteration_marks.
  - intros E'. apply twilio_iteration_marks.
  - intros st0. cbn [logged trace].
    rewrite count_exits_app, count_closing_app, count_cancels_app, handler_errors_app.
    cbn. rewrite app_nil_r. repeat split; lia.
Qed.

(** The turns taken under [run_tasks] are steps of the pumps; what
    arrives for a task that is done is not among them. *)
Lemma run_tasks_steps sched :
  forall t st,
  exists inputs,
    pump_steps E inputs st (snd (run_tasks E sched t st)) /\ incl inputs sched.
Proof.
  induction sched as [|[item|ev] rest IH]; intros t st; cbn [run_tasks].
  - exists []. split; [constructor | apply incl_refl].
  - destruct (done (phonic_task t)).
    + destruct (IH t st) as (inputs & H & Hin).
      exists inputs. split; [exact H | apply incl_tl; exact Hin].
    + destruct (phonic_iteration E item st) as [r st1] eqn:Hit.
      destruct (IH {| phonic_task := after_iteration r; twilio_task := twilio_task t |} st1)
        as (inputs & H & Hin).
      exists (ToPhonic item :: inputs). split.
      * apply (@steps_phonic E E item inputs st); [reflexivity |].
        rewrite Hit. exact H.
      * apply incl_cons; [left; reflexivity | apply incl_tl; exact Hin].
  - destruct (done (twilio_task t)).
    + destruct (IH t st) as (inputs & H & Hin).
      exists inputs. split; [exact H | apply incl_tl; exact Hin].
    + destruct (twilio_iteration E ev st) as [r st1] eqn:Hit.
      destruct (IH {| phonic_task := phonic_task t; twilio_task := after_iteration r |} st1)
        as (inputs & H & Hin).
      exists (ToTwilio ev :: inputs). split.
      * apply (@steps_twilio E E ev inputs st); [reflexivity |].
        rewrite Hit. exact H.
      * apply incl_cons; [left; reflexivity | apply incl_tl; exact Hin].
Qed.

Lemma scheduled_runs_the_pumps sched : runs_the_pumps E (scheduled E sched).
Proof.
  split; intros st; cbn [during_wait during_exit scheduled].
  - destruct (run_tasks_steps sched
                {| phonic_task := Suspended; twilio_task := Suspended |} st)
      as (inputs & H & _).
    exists inputs.
    destruct (run_tasks E sched _ st) as [t st1]; cbn [snd] in H.
    destruct (done (phonic_task t) || done (twilio_task t)); exact H.
  - exists []. constructor.
Qed.

Lemma cancelled_while_waiting_runs_the_pumps sched more :
  runs_the_pumps E (cancelled_while_waiting E sched more).
Proof.
  split; intros st; cbn [during_wait during_exit cancelled_while_waiting].
  - destruct (run_tasks_steps sched both_suspended st) as (inputs & H & _).
    exists inputs.
    destruct (run_tasks E sched both_suspended st) as [t st1]; cbn [snd] in H.
    destruct (done (phonic_task t) || done (twilio_task t)); exact H.
  - destruct (run_tasks_steps more both_suspended st) as (inputs & H & _).
    exists inputs. exact H.
Qed.

(** All the two pumps send is addressed to one stream, and that stream
    was named by the dict at the start or by an inbound frame received
    since. *)
Lemma pump_steps_one_stream_id inputs st st' :
  pump_steps E inputs st st' ->
  exists new sid,
    sent_json (trace st') = (sent_json (trace st) ++ new)%list
    /\ Forall (addressed_to sid) new
    /\ (forall cur, stream_id st = Some cur -> truthy cur = true -> sid = cur)
    /\ (new <> [] ->
        truthy sid = true
        /\ (stream_id st = Some sid
            \/ exists ev, In (ToTwilio ev) inputs /\ names_stream E ev sid)).
Proof.
  intros H.
  induction H as [st | E' item inputs st st' Heq _ IH
                  | E' ev inputs st st' Heq _ IH | inputs st st' _ IH].
  - exists [].
    exists (match stream_id st with Some cur => cur | None => VNone end).
    split; [symmetry; apply app_nil_r |]. split; [constructor |].
    split; [intros cur Hcur _; rewrite Hcur; reflexivity | congruence].
  - destruct (phonic_iteration_envelopes E' item st) as (Hsh & n1 & Hn1 & Hc1).
    destruct (phonic_iteration E' item st) as [r st1]; cbn [snd] in *.
    destruct IH as (n2 & sid & Hn2 & Ha2 & Hlink & Hprov).
    assert (Hid : stream_id st1 = stream_id st) by (unfold stream_id; congruence).
    assert (Ha1 : Forall (addressed_to sid) n1).
    { eapply Forall_impl; [| exact Hc1].
      intros x (s & Hs & Htrue & Hshape).
      rewrite <- Hid in Hs. rewrite (Hlink s Hs Htrue). exact Hshape. }
    exists (n1 ++ n2)%list, sid. split; [| split; [| split]].
    + rewrite Hn2, Hn1, app_assoc. reflexivity.
    + apply Forall_app. split; assumption.
    + intros cur Hcur. apply Hlink. rewrite Hid. exact Hcur.
    + intros Hne. destruct n1 as [|x n1].
      * destruct (Hprov Hne) as [Htrue [Hst | (ev & Hin & Hname)]].
        -- split; [exact Htrue | left; congruence].
        -- split; [exact Htrue | right; exists ev; split; [right; exact Hin | exact Hname]].
      * inversion Hc1 as [|? ? (s & Hs & Htrue & _) _]; subst.
        assert (sid = s) by (apply Hlink; [rewrite Hid; exact Hs | exact Htrue]).
        subst s. split; [exact Htrue | left; exact Hs].
  - pose proof (twilio_iteration_sent_json E' ev st) as Hsent.
    pose proof (twilio_iteration_provenance E' ev st) as Hstep.
    pose proof (fun cur => @twilio_iteration_keeps_shared_state E' ev st cur) as Hkeep.
    destruct (twilio_iteration E' ev st) as [r st1]; cbn [snd] in *.
    destruct IH as (n2 & sid & Hn2 & Ha2 & Hlink & Hprov).
    exists n2, sid. split; [| split; [| split]].
    + rewrite Hn2, Hsent. reflexivity.
    + exact Ha2.
    + intros cur Hcur Htrue. apply Hlink; [| exact Htrue].
      unfold stream_id. rewrite (Hkeep cur Hcur Htrue). exact Hcur.
    + intros Hne. destruct (Hprov Hne) as [Htrue [Hst | (ev' & Hin & Hname)]].
      * split; [exact Htrue |].
        destruct Hstep as [Hsame | (sid' & Hname & Hrec)].
        -- left. congruence.
        -- right. exists ev. split; [left; reflexivity |].
           assert (sid' = sid) by congruence. subst sid'.
           unfold names_stream in *. rewrite <- Heq. exact Hname.
      * split; [exact Htrue | right; exists ev'; split; [right; exact Hin | exact Hname]].
  - destruct IH as (n2 & sid & Hn2 & Ha2 & Hlink & Hprov).
    exists n2, sid. split; [| split; [| split]].
    + rewrite Hn2. cbn [logged trace]. rewrite sent_json_app. cbn.
      rewrite app_nil_r. reflexivity.
    + exact Ha2.
    + exact Hlink.
    + exact Hprov.
Qed.

End PumpSteps.

Section HandlerRuns.

Variable E : env.

Ltac use_loop Hwait Hexit :=
  repeat match goal with
         | Hw : during_wait _ ?s = _ |- _ =>
             let inp := fresh "inp" in
             let Hst := fresh "Hst" in
             destruct (Hwait s) as [inp Hst]; rewrite Hw in Hst; cbn [state_of] in Hst;
             apply pump_steps_marks in Hst; cbn [trace] in Hst;
             destruct Hst as (? & ? & ? & ?); clear Hw
         end;
  repeat match goal with
         | |- context [during_exit ?L ?s] =>
             let inp := fresh "inp" in
             let Hst := fresh "Hst" in
             destruct (Hexit s) as [inp Hst];
             apply pump_steps_marks in Hst; cbn [trace] in Hst;
             destruct Hst as (? & ? & ? & ?);
             generalize dependent (during_exit L s); intros
         end.

(** X15.  The client's scope is left exactly once in every finished run
    of the handler in which it was entered, whether the run ended by a
    pump finishing, by [client.sts] raising, by [__aexit__] itself raising
    or by the handler being cancelled while it waited; it is never left
    without having been entered, and not left at all while the handler is
    still waiting. *)
Theorem client_scope_is_left_exactly_once (L : event_loop) (st : state) :
  runs_the_pumps E L ->
  (done (fst (websocket_endpoint E L st)) = true ->
   count_exits (trace (snd (websocket_endpoint E L st))) =
   count_exits (trace st)
   + match io_fault E (trace st ++ [Accept]),
           io_fault E (trace st ++ [Accept; accepted_line; EnterClient]) with
     | None, None => 1
     | _, _ => 0
     end)
  /\ (fst (websocket_endpoint E L st) = Suspended ->
      count_exits (trace (snd (websocket_endpoint E L st))) = count_exits (trace st)).
Proof.
  intros [Hwait Hexit]. unfold accepted_line. run_h.
  split; intros Hdone; revert Hdone;
    repeat (destruct_match; cbn [fst snd shared_state text_buffer trace done] in *;
            rewrite <- ?app_assoc in *; cbn [app] in *);
    intros Hdone; try discriminate Hdone.
  all: split_pairs.
  all: use_loop Hwait Hexit.
  all: rewrite ?count_exits_app in *; cbn [count_exits filter length] in *;
    try congruence; try lia.
Qed.

(** X16.  The [finally] clause: every run of the handler that ends, by
    returning or by letting an exception through, ends with the closing
    log line, written exactly once; a handler still waiting has not
    written it. *)
Theorem closing_line_is_logged_exactly_once (L : event_loop) (st : state) :
  runs_the_pumps E L ->
  (done (fst (websocket_endpoint E L st)) = true ->
   (exists t, trace (snd (websocket_endpoint E L st)) = (t ++ [closing_line])%list)
   /\ count_closing (trace (snd (websocket_endpoint E L st)))
      = count_closing (trace st) + 1)
  /\ (fst (websocket_endpoint E L st) = Suspended ->
      count_closing (trace (snd (websocket_endpoint E L st)))
      = count_closing (trace st)).
Proof.
  intros [Hwait Hexit].
  assert (Hlast : forall (t l : list event),
             l <> [] -> last l Accept = closing_line ->
             exists t', (t ++ l)%list = (t' ++ [closing_line])%list).
  { intros t l Hne Hl. exists (t ++ removelast l)%list.
    rewrite <- app_assoc, <- Hl. f_equal. apply app_removelast_last. exact Hne. }
  unfold closing_line in *. run_h.
  split; intros Hdone; revert Hdone;
    repeat (destruct_match; cbn [fst snd shared_state text_buffer trace done] in *;
            rewrite <- ?app_assoc in *; cbn [app] in *);
    intros Hdone; try discriminate Hdone.
  all: split_pairs.
  all: try split.
  all: try (apply Hlast; [discriminate | reflexivity]).
  all: use_loop Hwait Hexit.
  all: rewrite ?count_closing_app in *; cbn [count_closing filter length String.eqb Ascii.eqb Bool.eqb] in *;
    try congruence; try lia.
Qed.

(** The handler itself sends nothing: what reached [send_json] by the
    end is what the two tasks sent, if they were started at all. *)
Lemma handler_sent_json sched st :
  sent_json (trace (snd (websocket_endpoint E (scheduled E sched) st)))
  = sent_json (trace st)
  \/ sent_json (trace (snd (websocket_endpoint E (scheduled E sched) st)))
     = sent_json (trace (snd (run_tasks E sched both_suspended (after_setup st)))).
Proof.
  unfold after_setup, both_suspended, accepted_line, scheduled. run_h.
  cbn [during_wait during_exit].
  repeat (destruct_match; cbn [fst snd shared_state text_buffer trace done] in *;
          rewrite <- ?app_assoc in *; cbn [app] in *).
  all: split_pairs.
  all: rewrite ?sent_json_app; cbn [sent_json flat_map app]; rewrite ?app_nil_r;
    auto.
Qed.

(** X17.  One stream per connection.  From the shared dict as the handler
    creates it, whatever the two pumps receive, in whatever order their
    turns come, whichever of their sends fail and wherever a cancellation
    cuts a turn short, everything sent to the telephony peer is a media or
    clear envelope addressed to one and the same [streamSid]; that
    identifier is truthy and is the [streamSid] of an inbound media frame
    this very connection received.  So it is for all that is sent during
    a run of [websocket_endpoint], whenever the handler is woken. *)
Theorem one_stream_id_per_connection :
  (forall (inputs : list pump_input) (st st' : state),
      stream_id st = Some VNone ->
      pump_steps E inputs st st' ->
      exists new sid,
        sent_json (trace st') = (sent_json (trace st) ++ new)%list
        /\ Forall (addressed_to sid) new
        /\ (new <> [] ->
            truthy sid = true
            /\ exists ev, In (ToTwilio ev) inputs /\ names_stream E ev sid))
  /\ (forall (sched : list pump_input) (st : state),
      exists new sid,
        sent_json (trace (snd (websocket_endpoint E (scheduled E sched) st)))
        = (sent_json (trace st) ++ new)%list
        /\ Forall (addressed_to sid) new
        /\ (new <> [] ->
            truthy sid = true
            /\ exists ev, In (ToTwilio ev) sched /\ names_stream E ev sid)).
Proof.
  assert (Hsteps : forall (inputs : list pump_input) (st st' : state),
             stream_id st = Some VNone ->
             pump_steps E inputs st st' ->
             exists new sid,
               sent_json (trace st') = (sent_json (trace st) ++ new)%list
               /\ Forall (addressed_to sid) new
               /\ (new <> [] ->
                   truthy sid = true
                   /\ exists ev, In (ToTwilio ev) inputs /\ names_stream E ev sid)).
  { intros inputs st st' Hfresh H.
    destruct (pump_steps_one_stream_id H) as (new & sid & Hnew & Hall & _ & Hprov).
    exists new, sid. split; [exact Hnew |]. split; [exact Hall |].
    intros Hne. destruct (Hprov Hne) as [Htrue [Hst | Hev]].
    - exfalso. rewrite Hfresh in Hst. injection Hst as <-. discriminate Htrue.
    - split; assumption. }
  split; [exact Hsteps |].
  intros sched st.
  destruct (handler_sent_json sched st) as [Hnone | Hrun].
  - exists [], VNone. split; [rewrite Hnone; symmetry; apply app_nil_r |].
    split; [constructor | congruence].
  - destruct (run_tasks_steps E sched both_suspended (after_setup st))
      as (inputs & Hin & Hincl).
    destruct (Hsteps inputs (after_setup st) _ eq_refl Hin)
      as (new & sid & Hnew & Hall & Hprov).
    exists new, sid. split; [| split].
    + rewrite Hrun, Hnew. unfold after_setup. cbn [trace].
      rewrite sent_json_app. cbn [sent_json flat_map app accepted_line].
      rewrite app_nil_r. reflexivity.
    + exact Hall.
    + intros Hne. destruct (Hprov Hne) as (Htrue & ev & Hev & Hname).
      split; [exact Htrue |]. exists ev. split; [apply Hincl; exact Hev | exact Hname].
Qed.

(** X18.  [except Exception] lets [CancelledError] and the like through,
    and nothing else: an exception that leaves the handler is not an
    [Exception], and the handler has logged no error on its way out.
    When [accept] raises such an exception the handler only writes the
    closing line and raises it on, the client and the pumps untouched.
    When the handler's own task is cancelled while it waits for the pumps,
    it cancels neither of them: it leaves the client's scope, the pumps
    going on meanwhile, writes the closing line and raises the
    cancellation on. *)
Theorem only_base_exceptions_leave_the_handler (L : event_loop) (st : state) :
  (runs_the_pumps E L ->
   forall e,
     fst (websocket_endpoint E L st) = Raised e ->
     is_Exception e = false
     /\ handler_errors (trace (snd (websocket_endpoint E L st)))
        = handler_errors (trace st))
  /\ (forall e,
      io_fault E (trace st ++ [Accept]) = Some e ->
      is_Exception e = false ->
      websocket_endpoint E L st =
      (Raised e,
       {| shared_state := shared_state st;
          text_buffer := text_buffer st;
          trace := trace st ++ [Accept; closing_line] |}))
  /\ (forall e st',
      io_fault E (trace st ++ [Accept]) = None ->
      io_fault E (trace st ++ [Accept; accepted_line; EnterClient]) = None ->
      io_fault E (trace st ++ [Accept; accepted_line; EnterClient; Sts]) = None ->
      during_wait L (after_setup st) = WaitRaises e st' ->
      is_Exception e = false ->
      io_fault E (trace st' ++ [ExitClient]) = None ->
      aexit_suppresses E = false ->
      websocket_endpoint E L st =
      (Raised e, logged closing_line (during_exit L (logged ExitClient st')))).
Proof.
  split; [| split].
  - intros [Hwait Hexit] e. run_h. intros Hraised. revert Hraised.
    repeat (destruct_match; cbn [fst snd shared_state text_buffer trace done] in *;
            rewrite <- ?app_assoc in *; cbn [app] in *);
      intros Hraised; try discriminate Hraised; injection Hraised as <-.
    all: split_pairs.
    all: split; [assumption |].
    all: use_loop Hwait Hexit.
    all: rewrite ?handler_errors_app in *;
      cbn [handler_errors flat_map app String.eqb Ascii.eqb Bool.eqb] in *;
      rewrite ?app_nil_r in *; congruence.
  - intros e Hf He. run_h. rewrite Hf, He. cbn.
    rewrite <- !app_assoc. reflexivity.
  - intros e st' Ha Hc Hs Hw He Hx Hsup.
    rewrite (@handler_after_setup E L st Ha Hc Hs), Hw.
    unfold after_wait, aexit, except_finally, call, emit, bind, logger_info, logged.
    cbn [fst snd shared_state text_buffer trace].
    rewrite Hx, Hsup, He. reflexivity.
Qed.

End HandlerRuns.

(* ================================================================= *)
(** ** More theorems at work *)

Lemma nothing_sent_while_stream_id_falsy_witness :
  (forall sid, stream_id fresh = Some sid -> truthy sid = false)
  /\ sent_json (trace (snd (process_phonic_messages calm
                              [Yield (audio_chunk (VStr silence) "Hi.");
                               Yield interrupted_response] fresh)))
     = sent_json (trace fresh).
Proof.
  assert (H : forall sid, stream_id fresh = Some sid -> truthy sid = false).
  { intros sid Hsid. injection Hsid as <-. reflexivity. }
  split; [exact H |].
  apply (@nothing_sent_while_stream_id_falsy calm
           [Yield (audio_chunk (VStr silence) "Hi."); Yield interrupted_response]
           fresh H).
Defined.

Lemma transcript_is_conserved_witness :
  fst (process_phonic_messages calm
         [Yield (audio_chunk (VStr silence) "Hi. How");
          Yield (VDict input_text_message);
          Yield (audio_chunk (VStr silence) " are")] fresh) = Suspended
  /\ exists new,
       flushes (trace (snd (process_phonic_messages calm
         [Yield (audio_chunk (VStr silence) "Hi. How");
          Yield (VDict input_text_message);
          Yield (audio_chunk (VStr silence) " are")] fresh)))
       = (flushes (trace fresh) ++ new)%list
       /\ join new ++ text_buffer (snd (process_phonic_messages calm
         [Yield (audio_chunk (VStr silence) "Hi. How");
          Yield (VDict input_text_message);
          Yield (audio_chunk (VStr silence) " are")] fresh))
          = join (map fragment
                    [Yield (audio_chunk (VStr silence) "Hi. How");
                     Yield (VDict input_text_message);
                     Yield (audio_chunk (VStr silence) " are")])
       /\ Forall (fun s => s <> "") new.
Proof.
  split; [reflexivity |].
  apply (@transcript_is_conserved calm
           [Yield (audio_chunk (VStr silence) "Hi. How");
            Yield (VDict input_text_message);
            Yield (audio_chunk (VStr silence) " are")] fresh).
  reflexivity.
Defined.

Lemma unusable_audio_chunk_ends_the_pump_witness :
  has_type silent_chunk "audio_chunk" = true
  /\ fst (process_phonic_messages calm [Yield (audio_chunk (VStr silence) "Wait")] fresh)
     = Suspended
  /\ dict_get "audio" silent_chunk = None
  /\ process_phonic_messages calm
       ([Yield (audio_chunk (VStr silence) "Wait")]
        ++ Yield (VDict silent_chunk) :: [Yield audio_finished]) fresh
     = (Raised (KeyError "audio"),
        snd (process_phonic_messages calm [Yield (audio_chunk (VStr silence) "Wait")] fresh)).
Proof.
  split; [reflexivity |]. split; [reflexivity |]. split; [reflexivity |].
  apply (proj1 (@unusable_audio_chunk_ends_the_pump calm silent_chunk
                  [Yield (audio_chunk (VStr silence) "Wait")] [Yield audio_finished]
                  fresh eq_refl eq_refl)).
  reflexivity.
Defined.

Lemma other_messages_leave_the_session_alone_witness :
  has_type input_text_message "audio_chunk" = false
  /\ has_type input_text_message "audio_finished" = false
  /\ has_type input_text_message "interrupted_response" = false
  /\ text_buffer (snd (phonic_body calm (VDict input_text_message)
                         {| shared_state := [(sid_key, VStr "MZ18ad3ab5")];
                            text_buffer := "Wait"; trace := [] |})) = "Wait".
Proof.
  split; [reflexivity |]. split; [reflexivity |]. split; [reflexivity |].
  apply (proj1 (proj1 (@other_messages_leave_the_session_alone calm input_text_message
                  {| shared_state := [(sid_key, VStr "MZ18ad3ab5")];
                     text_buffer := "Wait"; trace := [] |}
                  eq_refl eq_refl eq_refl))).
Defined.

Lemma json_without_event_ends_the_pump_witness :
  json_loads calm "{}" = Ok (VDict [])
  /\ getitem (VDict []) "event" = Raise (KeyError "event")
  /\ process_twilio_messages calm (RecvText "{}" :: [RecvText first_text]) fresh
     = (Raised (KeyError "event"), fresh).
Proof.
  split; [reflexivity |]. split; [reflexivity |].
  apply (proj1 (@json_without_event_ends_the_pump calm "{}" (VDict []) (KeyError "event")
                  [RecvText first_text] fresh eq_refl eq_refl)).
Defined.

Lemma undecodable_payload_ends_the_pump_witness :
  json_loads calm2 open_quad_text = Ok (media_frame (VStr "MZ18ad3ab5") "inbound" "abc")
  /\ Base64.b64decode (VStr "abc") = Raise BinasciiError
  /\ stream_id fresh = Some VNone
  /\ process_twilio_messages calm2 (RecvText open_quad_text :: [RecvText first_text]) fresh
     = (Raised BinasciiError,
        {| shared_state := [(sid_key, VStr "MZ18ad3ab5")];
           text_buffer := ""; trace := [] |}).
Proof.
  split; [reflexivity |]. split; [reflexivity |]. split; [reflexivity |].
  apply (@undecodable_payload_ends_the_pump calm2 open_quad_text
           (media_frame (VStr "MZ18ad3ab5") "inbound" "abc") (VStr "MZ18ad3ab5")
           (VDict [("track", VStr "inbound"); ("payload", VStr "abc")])
           (VStr "abc") VNone BinasciiError [RecvText first_text] fresh);
    reflexivity.
Defined.

Lemma streamSid_is_read_only_while_unset_witness :
  json_loads calm2 anonymous_text = Ok anonymous_frame
  /\ is_inbound_media anonymous_frame = true
  /\ getitem anonymous_frame "streamSid" = Raise (KeyError "streamSid")
  /\ process_twilio_messages calm2 (RecvText anonymous_text :: []) fresh
     = (Raised (KeyError "streamSid"), fresh)
  /\ process_twilio_messages calm2 (RecvText anonymous_text :: [])
       (with_stream_id (VStr "MZ18ad3ab5"))
     = process_twilio_messages calm2 []
         (logged (SendAudio (map Byte.to_N [xff; xff; xff; xff]))
            (with_stream_id (VStr "MZ18ad3ab5"))).
Proof.
  split; [reflexivity |]. split; [reflexivity |]. split; [reflexivity |].
  split.
  - apply (@streamSid_is_read_only_while_unset calm2 anonymous_text anonymous_frame
             (VDict [("track", VStr "inbound"); ("payload", VStr silence)])
             (VStr silence) VNone [xff; xff; xff; xff] [] fresh);
      reflexivity.
  - apply (@streamSid_is_read_only_while_unset calm2 anonymous_text anonymous_frame
             (VDict [("track", VStr "inbound"); ("payload", VStr silence)])
             (VStr silence) (VStr "MZ18ad3ab5") [xff; xff; xff; xff] []
             (with_stream_id (VStr "MZ18ad3ab5")));
      reflexivity.
Defined.

Lemma other_frames_change_nothing_witness :
  getitem (media_frame (VStr "MZ18ad3ab5") "outbound" silence) "event" = Ok (VStr "media")
  /\ is_inbound_media (media_frame (VStr "MZ18ad3ab5") "outbound" silence) = false
  /\ fst (twilio_body calm2 (media_frame (VStr "MZ18ad3ab5") "outbound" silence) fresh)
     = Ok tt
  /\ shared_state (snd (twilio_body calm2
                          (media_frame (VStr "MZ18ad3ab5") "outbound" silence) fresh))
     = shared_state fresh.
Proof.
  split; [reflexivity |]. split; [reflexivity |].
  assert (H := @other_frames_change_nothing calm2
                 (media_frame (VStr "MZ18ad3ab5") "outbound" silence) (VStr "media") fresh
                 eq_refl eq_refl
                 (or_intror
                    (ex_intro _ (VDict [("track", VStr "outbound"); ("payload", VStr silence)])
                       (ex_intro _ [("track", VStr "outbound"); ("payload", VStr silence)]
                          (conj eq_refl eq_refl))))).
  split; [exact (proj1 H) | exact (proj1 (proj2 H))].
Defined.

Lemma inbound_audio_is_forwarded_in_order_witness :
  (forall t, io_fault calm t = None)
  /\ stream_id fresh = Some VNone
  /\ fst (process_twilio_messages calm (map RecvText [first_text; second_text]) fresh)
     = Suspended
  /\ sent_audio (trace (snd (process_twilio_messages calm
                               (map RecvText [first_text; second_text]) fresh)))
     = (sent_audio (trace fresh)
        ++ map (map Byte.to_N) [[xff; xff; xff; xff]; [xff; xff; xff; xff]])%list.
Proof.
  split; [reflexivity |]. split; [reflexivity |].
  apply (@inbound_audio_is_forwarded_in_order calm [first_text; second_text]
           [[xff; xff; xff; xff]; [xff; xff; xff; xff]] VNone fresh).
  - reflexivity.
  - constructor.
    + exists (VStr "MZ18ad3ab5").
      exists (media_frame (VStr "MZ18ad3ab5") "inbound" silence),
        (VDict [("track", VStr "inbound"); ("payload", VStr silence)]), (VStr silence).
      repeat split.
    + constructor; [| constructor].
      exists (VStr "MZ7c2f90e1").
      exists (media_frame (VStr "MZ7c2f90e1") "inbound" silence),
        (VDict [("track", VStr "inbound"); ("payload", VStr silence)]), (VStr silence).
      repeat split.
  - reflexivity.
Defined.

Lemma client_scope_is_left_exactly_once_witness :
  runs_the_pumps calm (scheduled calm both_gone)
  /\ done (fst (websocket_endpoint calm (scheduled calm both_gone) idle)) = true
  /\ count_exits (trace (snd (websocket_endpoint calm (scheduled calm both_gone) idle)))
     = count_exits (trace idle) + 1.
Proof.
  split; [apply scheduled_runs_the_pumps |].
  split; [reflexivity |].
  apply (proj1 (@client_scope_is_left_exactly_once calm (scheduled calm both_gone) idle
                  (scheduled_runs_the_pumps calm both_gone))).
  reflexivity.
Defined.

(** The handler's task is cancelled while it waits; the pumps go on
    while it leaves the client's scope, and the closing line still comes
    last. *)
Lemma closing_line_is_logged_exactly_once_witness :
  runs_the_pumps calm2 (cancelled_while_waiting calm2 [] late_chunk)
  /\ done (fst (websocket_endpoint calm2 (cancelled_while_waiting calm2 [] late_chunk) idle))
     = true
  /\ ((exists t,
         trace (snd (websocket_endpoint calm2 (cancelled_while_waiting calm2 [] late_chunk) idle))
         = (t ++ [closing_line])%list)
      /\ count_closing
           (trace (snd (websocket_endpoint calm2 (cancelled_while_waiting calm2 [] late_chunk)
                          idle)))
         = count_closing (trace idle) + 1).
Proof.
  split; [apply cancelled_while_waiting_runs_the_pumps |].
  split; [reflexivity |].
  apply (proj1 (@closing_line_is_logged_exactly_once calm2
                  (cancelled_while_waiting calm2 [] late_chunk) idle
                  (cancelled_while_waiting_runs_the_pumps calm2 [] late_chunk))).
  reflexivity.
Defined.

(** The telephony pump records the stream and ends on a payload it cannot
    decode; the speech-service pump, still running, forwards a chunk, and
    the chunk is addressed to that stream. *)
Lemma one_stream_id_per_connection_witness :
  stream_id (after_setup idle) = Some VNone
  /\ pump_steps calm2 late_chunk (after_setup idle)
       (snd (run_tasks calm2 late_chunk both_suspended (after_setup idle)))
  /\ fst (run_tasks calm2 late_chunk both_suspended (after_setup idle))
     = {| phonic_task := Suspended; twilio_task := Raised BinasciiError |}
  /\ sent_json (trace (snd (run_tasks calm2 late_chunk both_suspended (after_setup idle))))
     = [media_envelope (VStr "MZ18ad3ab5") (VStr silence)]
  /\ exists new sid,
       sent_json (trace (snd (run_tasks calm2 late_chunk both_suspended (after_setup idle))))
       = (sent_json (trace (after_setup idle)) ++ new)%list
       /\ Forall (addressed_to sid) new
       /\ (new <> [] ->
           truthy sid = true
           /\ exists ev, In (ToTwilio ev) late_chunk /\ names_stream calm2 ev sid).
Proof.
  assert (H : pump_steps calm2 late_chunk (after_setup idle)
                (snd (run_tasks calm2 late_chunk both_suspended (after_setup idle)))).
  { apply (@steps_twilio calm2 calm2 _ _ (after_setup idle)); [reflexivity |].
    apply (@steps_phonic calm2 calm2); [reflexivity |].
    apply steps_none. }
  split; [reflexivity |]. split; [exact H |].
  split; [reflexivity |]. split; [reflexivity |].
  apply (proj1 (@one_stream_id_per_connection calm2) late_chunk (after_setup idle)
           (snd (run_tasks calm2 late_chunk both_suspended (after_setup idle))));
    [reflexivity | exact H].
Defined.

(** The handler's task is cancelled while both pumps run: no pump is
    cancelled, the client's scope is left, and [CancelledError] goes
    on. *)
Lemma only_base_exceptions_leave_the_handler_witness :
  io_fault calm (trace idle ++ [Accept]) = None
  /\ io_fault calm (trace idle ++ [Accept; accepted_line; EnterClient]) = None
  /\ io_fault calm (trace idle ++ [Accept; accepted_line; EnterClient; Sts]) = None
  /\ during_wait (cancelled_while_waiting calm [] []) (after_setup idle)
     = WaitRaises CancelledError (after_setup idle)
  /\ is_Exception CancelledError = false
  /\ io_fault calm (trace (after_setup idle) ++ [ExitClient]) = None
  /\ aexit_suppresses calm = false
  /\ websocket_endpoint calm (cancelled_while_waiting calm [] []) idle
     = (Raised CancelledError,
        logged closing_line
          (during_exit (cancelled_while_waiting calm [] [])
             (logged ExitClient (after_setup idle)))).
Proof.
  repeat (split; [reflexivity |]).
  apply (proj2 (proj2 (@only_base_exceptions_leave_the_handler calm
                         (cancelled_while_waiting calm [] []) idle))
           CancelledError (after_setup idle));
    reflexivity.
Defined.

(* ================================================================= *)
(** ** Facts about start-up *)

Module StartupFacts.
Import Startup.

(** X19.  Start-up never overwrites a template: when something already
    sits at [templates/twilio.xml], [ensure_template] changes neither the
    files nor the log.  When nothing does, it succeeds unless [templates]
    is not a directory, and then [serve_twiml] answers with the stock
    template; either way, after a start-up that succeeded over a file,
    [serve_twiml] serves that file as [text/xml]. *)
Theorem startup_keeps_an_existing_template (o : os) :
  (xml_exists o = true -> ensure_template o = (Ok tt, o))
  /\ (xml_exists o = false ->
      templates_dir o <> NotAFolder ->
      fst (ensure_template o) = Ok tt
      /\ body serve_twiml (snd (ensure_template o)) = Ok xml_content)
  /\ (forall content,
      templates_dir o = Present (Some (File content)) ->
      body serve_twiml (snd (ensure_template o)) = Ok content
      /\ media_type serve_twiml = "text/xml").
Proof.
  unfold ensure_template, xml_exists.
  split; [| split].
  - intros H. rewrite H. reflexivity.
  - intros H Hdir. destruct o as [[| |[[c|]|]] l]; cbn in *;
      try discriminate; try congruence; auto.
  - intros content H. destruct o as [t l]. cbn in H. subst t. cbn. auto.
Qed.

(** X20.  [create_twilio_xml] itself does overwrite: called on a
    directory that holds a template file, it replaces the content with the
    stock template, and calling it again changes nothing but the log; it
    fails, writing nothing, exactly when [templates] is not a directory
    or [twilio.xml] is one. *)
Theorem create_twilio_xml_overwrites (o : os) :
  match templates_dir o with
  | NotAFolder | Present (Some Folder) =>
      exists e, create_twilio_xml o = (Raise e, o)
  | _ =>
      fst (create_twilio_xml o) = Ok tt
      /\ templates_dir (snd (create_twilio_xml o)) = Present (Some (File xml_content))
      /\ templates_dir (snd (create_twilio_xml (snd (create_twilio_xml o))))
         = templates_dir (snd (create_twilio_xml o))
      /\ length (log (snd (create_twilio_xml o))) = length (log o) + 2
  end.
Proof.
  destruct o as [[| |[[c|]|]] l]; cbn;
    try (eexists; reflexivity);
    repeat split; rewrite ?length_app; cbn; lia.
Qed.

End StartupFacts.

(* ================================================================= *)
(** ** More about decoding payloads *)

Module Base64Lenient.
Import Base64.

Local Open Scope list_scope.

Lemma list_ascii_of_string_app (s1 s2 : string) :
  list_ascii_of_string (s1 ++ s2)%string =
  list_ascii_of_string s1 ++ list_ascii_of_string s2.
Proof. induction s1 as [|c s1 IH]; cbn; [reflexivity | now rewrite IH]. Qed.

(** A byte outside the alphabet that is not the pad is passed over,
    wherever it stands. *)
Lemma a2b_loop_skips (c : ascii) (l1 l2 : list ascii) :
  table_a2b_base64 c = None ->
  Ascii.eqb c BASE64_PAD = false ->
  forall quad_pos leftchar pads bin_data,
    a2b_loop (l1 ++ c :: l2) quad_pos leftchar pads bin_data =
    a2b_loop (l1 ++ l2) quad_pos leftchar pads bin_data.
Proof.
  intros Htab Hpad. induction l1 as [|x l1 IH]; intros quad_pos leftchar pads bin_data.
  - cbn [app a2b_loop]. rewrite Hpad, Htab. reflexivity.
  - cbn [app a2b_loop].
    destruct (Ascii.eqb x BASE64_PAD).
    + destruct (N.leb 2 quad_pos); [| apply IH].
      destruct (N.leb 4 (quad_pos + (pads + 1))); [reflexivity | apply IH].
    + destruct (table_a2b_base64 x) as [v|]; [| apply IH].
      destruct (N.eqb quad_pos 0); [apply IH |].
      destruct (N.eqb quad_pos 1); [apply IH |].
      destruct (N.eqb quad_pos 2); apply IH.
Qed.

(** X21.  Payloads are decoded leniently, as [base64.b64decode] does
    without [validate]: an ASCII character that is neither in the base64
    alphabet nor the pad (a line break, a space, a stray symbol) is
    dropped wherever it occurs, and the payload decodes as if it were not
    there. *)
Theorem foreign_characters_in_a_payload_are_dropped (s1 s2 : string) (c : ascii) :
  (N_of_ascii c <? 128)%N = true ->
  table_a2b_base64 c = None ->
  c <> BASE64_PAD ->
  b64decode (VStr (s1 ++ String c s2)) = b64decode (VStr (s1 ++ s2)).
Proof.
  intros Hascii Htab Hpad. apply Ascii.eqb_neq in Hpad.
  unfold b64decode, b64decode_str. cbv zeta.
  rewrite !list_ascii_of_string_app. cbn [list_ascii_of_string].
  rewrite !forallb_app. cbn [forallb]. rewrite Hascii. cbn [andb].
  destruct (forallb (fun c0 => (N_of_ascii c0 <? 128)%N) (list_ascii_of_string s1));
    [| reflexivity].
  destruct (forallb (fun c0 => (N_of_ascii c0 <? 128)%N) (list_ascii_of_string s2));
    [| reflexivity].
  cbn [andb]. unfold a2b_base64. apply a2b_loop_skips; assumption.
Qed.

End Base64Lenient.

Lemma foreign_characters_in_a_payload_are_dropped_witness :
  (N_of_ascii "010"%char <? 128)%N = true
  /\ Base64.table_a2b_base64 "010"%char = None
  /\ "010"%char <> Base64.BASE64_PAD
  /\ Base64.b64decode (VStr ("////" ++ String "010"%char "/w=="))
     = Base64.b64decode (VStr ("////" ++ "/w==")).
Proof.
  assert (H : "010"%char <> Base64.BASE64_PAD) by discriminate.
  split; [reflexivity |]. split; [reflexivity |]. split; [exact H |].
  apply (@Base64Lenient.foreign_characters_in_a_payload_are_dropped
           "////" "/w==" "010"%char eq_refl eq_refl H).
Defined.

Lemma startup_keeps_an_existing_template_witness :
  Startup.xml_exists
    {| Startup.templates_dir := Startup.Present (Some (Startup.File "<Response/>"));
       Startup.log := [] |} = true
  /\ Startup.ensure_template
       {| Startup.templates_dir := Startup.Present (Some (Startup.File "<Response/>"));
          Startup.log := [] |}
     = (Ok tt,
        {| Startup.templates_dir := Startup.Present (Some (Startup.File "<Response/>"));
           Startup.log := [] |}).
Proof.
  split; [reflexivity |].
  apply (proj1 (StartupFacts.startup_keeps_an_existing_template
                  {| Startup.templates_dir :=
                       Startup.Present (Some (Startup.File "<Response/>"));
                     Startup.log := [] |})).
  reflexivity.
Defined.
